(** * Variational quantum Monte Carlo: the sampling library [lib.py]

    A shallow embedding of the Metropolis walker, the initial-point sampler,
    the step-size tuner, the integration driver and the optimizer wrapper of
    [lib.py], with the properties of each that the specification states.

    Conventions of the embedding.
    - A number is a value with the kind of object that holds it: one of
      Python's own numbers ([int], [float]) or a numpy [float64].  A value
      is an exact rational, the negative zero, an infinity or not-a-number;
      rounding and overflow are outside the model.  [/] between two Python
      numbers raises [ZeroDivisionError] on a zero divisor; as soon as one
      operand is a numpy [float64] it follows IEEE 754 (with a warning) and
      yields an infinity or not-a-number instead.
    - A one-dimensional [np.ndarray] is a [list Q]; the two-dimensional
      array [steps] is a record that keeps its row width next to its rows.
    - numpy's global random state is threaded explicitly: a computation takes
      a generator state and returns its outcome with the state it leaves
      behind.  A raised exception is an [Err] outcome; nothing in [lib.py]
      catches exceptions, so an [Err] is what the caller sees. *)

From Stdlib Require Import ZArith QArith Qabs Lia.
From stdpp Require Import base list strings gmap.

Local Open Scope Z_scope.

(** ** Exceptions and outcomes *)

Inductive exn : Type :=
  | TypeError
  | ValueError
  | IndexError
  | ZeroDivisionError
  | KeyError
  | NameError
  | AttributeError.

Inductive result (A : Type) : Type :=
  | Ok (a : A)
  | Err (e : exn).
Arguments Ok {A} a.
Arguments Err {A} e.

Definition is_ok {A} (r : result A) : bool :=
  match r with Ok _ => true | Err _ => false end.

Definition result_bind {A B} (r : result A) (k : A -> result B) : result B :=
  match r with
  | Ok a => k a
  | Err e => Err e
  end.

Notation "'let?' x := r 'in' k" := (result_bind r (fun x => k))
  (at level 10, x name, r at level 100, k at level 200).

(** ** Random state *)

(** What [lib.py] uses of [np.random]: standard normal deviates (behind
    [np.random.normal]) and uniform deviates on the half-open unit interval
    (behind [np.random.rand]). *)
Class RandomState (G : Type) : Type := {
  standard_normal : G -> Q * G;
  random_sample : G -> Q * G;
  random_sample_range :
    forall g : G, (0 <= fst (random_sample g))%Q /\ (fst (random_sample g) < 1)%Q
}.

(** A computation over the random state that may raise. *)
Definition Sampler (G A : Type) : Type := G -> result A * G.

Definition ret {G A} (a : A) : Sampler G A := fun g => (Ok a, g).

Definition raise {G A} (e : exn) : Sampler G A := fun g => (Err e, g).

Definition bind {G A B} (c : Sampler G A) (k : A -> Sampler G B) : Sampler G B :=
  fun g =>
    match c g with
    | (Ok a, g') => k a g'
    | (Err e, g') => (Err e, g')
    end.

(** A computation that does not touch the random state. *)
Definition pure_step {G A} (r : result A) : Sampler G A := fun g => (r, g).

Notation "'do' x <- c ; k" := (bind c (fun x => k))
  (at level 10, x name, c at level 100, k at level 200).

(** ** Python and numpy primitives *)

(** [x < y] on rationals. *)
Definition Qlt_bool (x y : Q) : bool := negb (Qle_bool y x).

(** The value of a float.  [Fin q] with [q == 0] is the positive zero. *)
Inductive xreal : Type :=
  | Fin (q : Q)
  | NegZero
  | PInf
  | NInf
  | NaN.

(** Python's own numbers and numpy's [float64] scalars. *)
Inductive numkind : Type :=
  | Python
  | Numpy.

Record number : Type := {
  kind : numkind;
  val : xreal
}.

(** A Python [int] or [float] of value [q], and a numpy [float64]. *)
Definition py_number (q : Q) : number := {| kind := Python; val := Fin q |}.
Definition np_float64 (q : Q) : number := {| kind := Numpy; val := Fin q |}.

(** The kind of the result of a binary operation: numpy's as soon as one
    operand is numpy's. *)
Definition join_kind (a b : numkind) : numkind :=
  match a, b with
  | Python, Python => Python
  | _, _ => Numpy
  end.

Definition xis_zero (x : xreal) : bool :=
  match x with
  | Fin q => Qeq_bool q 0
  | NegZero => true
  | _ => false
  end.

(** The sign bit; that of not-a-number plays no part. *)
Definition xsign (x : xreal) : bool :=
  match x with
  | Fin q => Qlt_bool q 0
  | NegZero | NInf => true
  | PInf | NaN => false
  end.

Definition xzero (negative : bool) : xreal := if negative then NegZero else Fin 0.

Definition xinf (negative : bool) : xreal := if negative then NInf else PInf.

(** The rational that a finite value holds. *)
Definition xrat (x : xreal) : Q :=
  match x with
  | Fin q => q
  | _ => 0%Q
  end.

(** IEEE 754 division. *)
Definition xdiv (x y : xreal) : xreal :=
  match x, y with
  | NaN, _ | _, NaN => NaN
  | (PInf | NInf), (PInf | NInf) => NaN
  | (PInf | NInf), _ => xinf (xorb (xsign x) (xsign y))
  | _, (PInf | NInf) => xzero (xorb (xsign x) (xsign y))
  | _, _ =>
      if xis_zero y then
        if xis_zero x then NaN else xinf (xorb (xsign x) (xsign y))
      else if xis_zero x then xzero (xorb (xsign x) (xsign y))
      else Fin (xrat x / xrat y)
  end.

(** IEEE 754 addition: opposite infinities give not-a-number, and a sum
    that is zero is the positive zero unless both terms are the negative
    zero. *)
Definition xadd (x y : xreal) : xreal :=
  match x, y with
  | NaN, _ | _, NaN => NaN
  | PInf, NInf | NInf, PInf => NaN
  | PInf, _ | _, PInf => PInf
  | NInf, _ | _, NInf => NInf
  | NegZero, NegZero => NegZero
  | NegZero, z | z, NegZero => z
  | Fin a, Fin b => Fin (a + b)
  end.

Definition xneg (x : xreal) : xreal :=
  match x with
  | Fin q => if Qeq_bool q 0 then NegZero else Fin (- q)
  | NegZero => Fin 0
  | PInf => NInf
  | NInf => PInf
  | NaN => NaN
  end.

Definition xabs (x : xreal) : xreal :=
  match x with
  | Fin q => Fin (Qabs q)
  | NegZero => Fin 0
  | PInf | NInf => PInf
  | NaN => NaN
  end.

(** [x <= y]: false as soon as one side is not-a-number. *)
Definition xleb (x y : xreal) : bool :=
  match x, y with
  | NaN, _ | _, NaN => false
  | NInf, _ | _, PInf => true
  | PInf, _ | _, NInf => false
  | _, _ => Qle_bool (xrat x) (xrat y)
  end.
Arguments xleb : simpl never.

(** [x < y] and [x > y]. *)
Definition xltb (x y : xreal) : bool := xleb x y && negb (xleb y x).

(** [x <= y] for a rational [x], as a proposition. *)
Definition at_most (x : Q) (y : xreal) : Prop :=
  match y with
  | Fin q => (x <= q)%Q
  | NegZero => (x <= 0)%Q
  | PInf => True
  | NInf | NaN => False
  end.

(** [x / y]: between two Python numbers a zero divisor raises; with a numpy
    operand the division is IEEE 754's and never raises. *)
Definition truediv (x y : number) : result number :=
  match kind x, kind y with
  | Python, Python =>
      if xis_zero (val y) then Err ZeroDivisionError
      else Ok {| kind := Python; val := xdiv (val x) (val y) |}
  | _, _ => Ok {| kind := Numpy; val := xdiv (val x) (val y) |}
  end.

(** [x + y] and [x - y]. *)
Definition add (x y : number) : number :=
  {| kind := join_kind (kind x) (kind y); val := xadd (val x) (val y) |}.

Definition sub (x y : number) : number :=
  {| kind := join_kind (kind x) (kind y); val := xadd (val x) (xneg (val y)) |}.

(** [abs(x)] *)
Definition abs (x : number) : number := {| kind := kind x; val := xabs (val x) |}.

(** [x & y] where [y] is a float: [int], [float] and [float64] implement no
    bitwise and with a float operand, so the operator raises whatever the
    values. *)
Definition bitand_float (x y : number) : result number := Err TypeError.

(** A Python callable as [lib.py] uses [prob_density]: it is called with one
    positional argument and with two. *)
Record callable : Type := {
  call1 : list Q -> result number;
  call2 : list Q -> list Q -> result number
}.

(** [def f(r, alpha): ...], the signature the docstrings give: one
    positional argument is one too few. *)
Definition def_r_alpha (f : list Q -> list Q -> result number) : callable :=
  {| call1 := fun _ => Err TypeError; call2 := f |}.

(** [def f(r, alpha=a0): ...]. *)
Definition def_r_alpha_default (f : list Q -> list Q -> result number) (a0 : list Q)
  : callable :=
  {| call1 := fun r => f r a0; call2 := f |}.

(** The two-dimensional array [steps]: [ncols] is the second component of
    its shape, which an array with no rows still has. *)
Record ndarray2 : Type := {
  ncols : nat;
  rows : list (list Q)
}.

(** [np.zeros([n, m])] *)
Definition np_zeros2 (n m : Z) : result ndarray2 :=
  if (n <? 0) || (m <? 0) then Err ValueError
  else Ok {| ncols := Z.to_nat m;
             rows := replicate (Z.to_nat n) (replicate (Z.to_nat m) 0%Q) |}.

(** [np.zeros(m)] *)
Definition np_zeros1 (m : Z) : result (list Q) :=
  if m <? 0 then Err ValueError else Ok (replicate (Z.to_nat m) 0%Q).

(** Broadcasting a one-dimensional value to a row of width [n]. *)
Definition broadcast_to (n : nat) (v : list Q) : result (list Q) :=
  if (length v =? n)%nat then Ok v
  else match v with
       | [x] => Ok (replicate n x)
       | _ => Err ValueError
       end.

(** [a[i] = v] for a non-negative index [i]: the index is resolved first,
    then the value is broadcast and copied into the row. *)
Definition setitem (a : ndarray2) (i : nat) (v : list Q) : result ndarray2 :=
  if (i <? length (rows a))%nat then
    let? row := broadcast_to (ncols a) v in
    Ok {| ncols := ncols a; rows := <[i := row]> (rows a) |}
  else Err IndexError.

Section Sampling.

Context {G : Type} `{RandomState G}.

(** One normal deviate per coordinate of [loc], in order. *)
Fixpoint normal_fill (loc : list Q) (scale : Q) (g : G) : list Q * G :=
  match loc with
  | [] => ([], g)
  | m :: loc' =>
      let (z, g1) := standard_normal g in
      let (rest, g2) := normal_fill loc' scale g1 in
      ((m + scale * z)%Q :: rest, g2)
  end.

(** [np.random.normal(loc=loc, scale=scale)] for an array [loc] and a scalar
    [scale]; a negative [scale] is refused before anything is drawn. *)
Definition np_random_normal (loc : list Q) (scale : Q) : Sampler G (list Q) :=
  fun g =>
    if Qle_bool 0 scale then
      let (v, g') := normal_fill loc scale g in (Ok v, g')
    else (Err ValueError, g).

(** [np.random.normal(scale=scale, size=size)]: [loc] defaults to zero. *)
Definition np_random_normal_size (scale : Q) (size : Z) : Sampler G (list Q) :=
  if size <? 0 then raise ValueError
  else np_random_normal (replicate (Z.to_nat size) 0%Q) scale.

(** [np.random.rand(1)], read as the number it holds. *)
Definition np_random_rand1 : Sampler G Q :=
  fun g => let (u, g') := random_sample g in (Ok u, g').

(** ** The Metropolis walker *)

(** [prob_density(next_point,alpha)/prob_density(curr_point)]: the numerator
    is called with [alpha], the denominator with the point alone. *)
Definition acceptance_rate (prob_density : callable) (alpha next_point curr_point : list Q)
  : result number :=
  let? num := call2 prob_density next_point alpha in
  let? den := call1 prob_density curr_point in
  truediv num den.

(** The body of [for i in range(N_steps)], on the pair of the array [steps]
    and [curr_point]. *)
Definition walker_body (prob_density : callable) (alpha : list Q) (tm_sigma : Q)
    (i : nat) (st : ndarray2 * list Q) : Sampler G (ndarray2 * list Q) :=
  let (steps, curr_point) := st in
  do next_point <- np_random_normal curr_point tm_sigma;
  do rate <- pure_step (acceptance_rate prob_density alpha next_point curr_point);
  do u <- np_random_rand1;
  if xleb (Fin u) (val rate) then
    do steps' <- pure_step (setitem steps i next_point);
    ret (steps', next_point)
  else
    do steps' <- pure_step (setitem steps i curr_point);
    ret (steps', curr_point).

Fixpoint walker_loop (prob_density : callable) (alpha : list Q) (tm_sigma : Q)
    (range : list nat) (st : ndarray2 * list Q) : Sampler G (ndarray2 * list Q) :=
  match range with
  | [] => ret st
  | i :: range' =>
      do st' <- walker_body prob_density alpha tm_sigma i st;
      walker_loop prob_density alpha tm_sigma range' st'
  end.

Definition random_walker (prob_density : callable) (alpha : list Q)
    (N_steps dim : Z) (init_point : list Q) (tm_sigma : Q) : Sampler G ndarray2 :=
  do steps <- pure_step (np_zeros2 N_steps dim);
  do steps <- pure_step (setitem steps 0 init_point);
  do st <- walker_loop prob_density alpha tm_sigma
             (seq 0 (Z.to_nat N_steps)) (steps, init_point);
  ret (fst st).

(** [random_walker] stopped at the head of iteration [k]: the array and the
    current point as they are then. *)
Definition random_walker_upto (prob_density : callable) (alpha : list Q)
    (N_steps dim : Z) (init_point : list Q) (tm_sigma : Q) (k : nat)
  : Sampler G (ndarray2 * list Q) :=
  do steps <- pure_step (np_zeros2 N_steps dim);
  do steps <- pure_step (setitem steps 0 init_point);
  walker_loop prob_density alpha tm_sigma (seq 0 k) (steps, init_point).

(** ** The initial point *)

Definition rand_init_point (system_size : Q) (dim : Z) : Sampler G (list Q) :=
  np_random_normal_size system_size dim.

(** ** Vocabulary of the properties *)

(** The generator after [n] normal deviates were drawn from it. *)
Fixpoint after_normals (n : nat) (g : G) : G :=
  match n with
  | O => g
  | S n' => after_normals n' (snd (standard_normal g))
  end.

(** The deviate that the draw number [i] (from zero) yields, from [g] on. *)
Definition nth_normal (i : nat) (g : G) : Q :=
  fst (standard_normal (after_normals i g)).

(** [q] is a trial move that the walker drew from [p] and accepted: for some
    state of the generator, [q] is the normal perturbation of [p] by
    [tm_sigma], and the uniform deviate drawn next is at most the rate. *)
Definition accepted_move (prob_density : callable) (alpha : list Q) (tm_sigma : Q)
    (p q : list Q) : Prop :=
  exists (g : G) (rate : number),
    q = fst (normal_fill p tm_sigma g) /\
    acceptance_rate prob_density alpha q p = Ok rate /\
    at_most (fst (random_sample (snd (normal_fill p tm_sigma g)))) (val rate).

End Sampling.

(** The acceptance ratio in the words of the specification: both densities
    are evaluated with [alpha]. *)
Definition acceptance_rate_spec (prob_density : callable)
    (alpha next_point curr_point : list Q) : result number :=
  let? num := call2 prob_density next_point alpha in
  let? den := call2 prob_density curr_point alpha in
  truediv num den.

(** ** The step-size tuner *)

(** [abs(rate_av - 0.5)>tol & (rate_av - 0.5)>0].  [&] binds tighter than the
    comparisons, so this is the chain [a > b > 0] with
    [b = tol & (rate_av - 0.5)]; [a] is evaluated first, then [b]. *)
Definition tuner_test_above (rate_av tol : number) : result bool :=
  let a := abs (sub rate_av (py_number (1 # 2))) in
  let? b := bitand_float tol (sub rate_av (py_number (1 # 2))) in
  Ok (xltb (val b) (val a) && xltb (Fin 0) (val b)).

(** [abs(rate_av - 0.5)>tol & (rate_av - 0.5)<0], the chain [a > b < 0]. *)
Definition tuner_test_below (rate_av tol : number) : result bool :=
  let a := abs (sub rate_av (py_number (1 # 2))) in
  let? b := bitand_float tol (sub rate_av (py_number (1 # 2))) in
  Ok (xltb (val b) (val a) && xltb (val b) (Fin 0)).

(** The local variables of [find_optimal_tm_sigma] that survive a pass of
    the [while] loop. *)
Record tuner_state : Type := {
  curr_point : list Q;
  curr_tm_sigma : Q;
  total_rate : number;
  rate_av : number
}.

Section Tuning.

Context {G : Type} `{RandomState G}.

(** The body of [for i in range(100)], on [curr_point] and [total_rate]. *)
Definition tuner_trial (prob_density : callable) (alpha : list Q) (sigma : Q)
    (st : list Q * number) : Sampler G (list Q * number) :=
  let (point, total) := st in
  do next_point <- np_random_normal point sigma;
  do rate <- pure_step (acceptance_rate prob_density alpha next_point point);
  let total := add total rate in
  do u <- np_random_rand1;
  if xleb (Fin u) (val rate) then ret (next_point, total) else ret (point, total).

Fixpoint tuner_batch (prob_density : callable) (alpha : list Q) (sigma : Q)
    (n : nat) (st : list Q * number) : Sampler G (list Q * number) :=
  match n with
  | O => ret st
  | S n' =>
      do st' <- tuner_trial prob_density alpha sigma st;
      tuner_batch prob_density alpha sigma n' st'
  end.

(** One pass of the [while] loop, up to [iter += 1].  The [else] branch is
    the bare name [exit], an expression statement without effect. *)
Definition tuner_pass (prob_density : callable) (alpha : list Q) (tol : Q)
    (st : tuner_state) : Sampler G tuner_state :=
  do b <- tuner_batch prob_density alpha (curr_tm_sigma st) 100
            (curr_point st, total_rate st);
  do average <- pure_step (truediv (snd b) (py_number 100));
  let st := {| curr_point := fst b; curr_tm_sigma := curr_tm_sigma st;
               total_rate := snd b; rate_av := average |} in
  do above <- pure_step (tuner_test_above (rate_av st) (py_number tol));
  if above then
    ret {| curr_point := curr_point st; curr_tm_sigma := 0;
           total_rate := total_rate st; rate_av := rate_av st |}
  else
    do below <- pure_step (tuner_test_below (rate_av st) (py_number tol));
    if below then
      ret {| curr_point := curr_point st; curr_tm_sigma := 0;
             total_rate := total_rate st; rate_av := rate_av st |}
    else ret st.

(** [while iter<=Niter: ...; iter += 1].  [iter] grows by one a pass, so
    [Niter + 1 - iter] passes exhaust the loop; [fuel] is that count. *)
Fixpoint tuner_while (fuel : nat) (prob_density : callable) (alpha : list Q)
    (tol : Q) (Niter iter : Z) (st : tuner_state) : Sampler G Q :=
  match fuel with
  | O => ret (curr_tm_sigma st)
  | S fuel' =>
      if iter <=? Niter then
        do st' <- tuner_pass prob_density alpha tol st;
        tuner_while fuel' prob_density alpha tol Niter (iter + 1) st'
      else ret (curr_tm_sigma st)
  end.

Definition find_optimal_tm_sigma (prob_density : callable) (alpha : list Q)
    (dim : Z) (tm_sigma_init : Q) (Niter : Z) (tol : Q) : Sampler G Q :=
  do zeros <- pure_step (np_zeros1 dim);
  tuner_while (Z.to_nat (Niter + 1 - 1)) prob_density alpha tol Niter 1
    {| curr_point := zeros; curr_tm_sigma := tm_sigma_init;
       total_rate := py_number 0; rate_av := py_number 0 |}.

End Tuning.

(** ** Python values, the integration driver and the optimizer *)

#[warnings="-register-all"]
Inductive pyvalue : Type :=
  | PyNone
  | PyNum (x : Q)
  | PyStr (s : string)
  | PyArray (v : list Q)
  | PyTuple (items : list pyvalue).

(** [MC_integration]: the body is the bare [return]. *)
Definition MC_integration (E_local_f prob_density : callable) (alpha : list Q)
    (N_steps N_walkers N_skip : Z) (L_start : Q) : result pyvalue :=
  Ok PyNone.

Record Optimizer : Type := {
  method : pyvalue;
  converged : bool;
  alpha : pyvalue
}.

(** [opt_args[key]] *)
Definition getitem (d : gmap string pyvalue) (key : string) : result pyvalue :=
  match d !! key with
  | Some v => Ok v
  | None => Err KeyError
  end.

(** [Optimizer.__init__] *)
Definition Optimizer_init (opt_args : gmap string pyvalue) : result Optimizer :=
  let? m := getitem opt_args "method" in
  let? a := getitem opt_args "init_alpha" in
  Ok {| method := m; converged := false; alpha := a |}.

(** The test [if v == s:] for a string literal [s].  On an array [==] is
    elementwise, no number equals a string, and the truth value of the
    array of booleans exists only when it has one element. *)
Definition eq_str (v : pyvalue) (s : string) : result bool :=
  match v with
  | PyStr t => Ok (String.eqb t s)
  | PyArray a => if (length a =? 1)%nat then Ok false else Err ValueError
  | _ => Ok false
  end.

Definition scan_alpha (alpha_old step : pyvalue) : pyvalue := PyNum 0.

Definition steepest_descent (alpha_old args : pyvalue) : pyvalue := PyNum 0.

(** The name [step] in [update_alpha]: it is neither a local nor a global
    of the module. *)
Definition load_name_step : result pyvalue := Err NameError.

(** [self.args]: [__init__] sets [method], [converged] and [alpha] only. *)
Definition getattr_args (self : Optimizer) : result pyvalue := Err AttributeError.

(** [Optimizer.update_alpha]: the outcome of the call and the object after
    it.  An argument that raises does so before the assignment. *)
Definition update_alpha (self : Optimizer) (args : pyvalue) : result unit * Optimizer :=
  match eq_str (method self) "scan" with
  | Err e => (Err e, self)
  | Ok true =>
      match load_name_step with
      | Ok step =>
          (Ok tt, {| method := method self; converged := true;
                     alpha := scan_alpha (alpha self) step |})
      | Err e => (Err e, self)
      end
  | Ok false =>
      match eq_str (method self) "steepest_descent" with
      | Err e => (Err e, self)
      | Ok true =>
          match getattr_args self with
          | Ok self_args =>
              (Ok tt, {| method := method self; converged := true;
                         alpha := steepest_descent (alpha self) self_args |})
          | Err e => (Err e, self)
          end
      | Ok false =>
          (Ok tt, {| method := method self; converged := true; alpha := alpha self |})
      end
  end.

(** The object after [n] calls of [update_alpha] by a caller that goes on
    after an exception. *)
Fixpoint update_alpha_times (n : nat) (self : Optimizer) (args : pyvalue) : Optimizer :=
  match n with
  | O => self
  | S n' => update_alpha_times n' (snd (update_alpha self args)) args
  end.

(** ** A generator that replays recorded deviates *)

(** The deviates still to be handed out; an exhausted tape hands out zero,
    and a recorded uniform deviate outside the unit interval is read as
    zero. *)
Record tape : Type := {
  normals : list Q;
  uniforms : list Q
}.

Definition tape_normal (t : tape) : Q * tape :=
  match normals t with
  | [] => (0%Q, t)
  | z :: zs => (z, {| normals := zs; uniforms := uniforms t |})
  end.

Definition unit_interval (x : Q) : Q :=
  if Qle_bool 0 x && Qlt_bool x 1 then x else 0%Q.

Definition tape_uniform (t : tape) : Q * tape :=
  match uniforms t with
  | [] => (0%Q, t)
  | u :: us => (unit_interval u, {| normals := normals t; uniforms := us |})
  end.

(** ** Densities and a tape for the worked inputs *)

(** [def rho(r, alpha=[]): return 1], a Python [int]. *)
Definition flat_density : callable :=
  def_r_alpha_default (fun _ _ => Ok (py_number 1)) [].

(** The density of the trial wave function [1/sqrt(1 + a*x**2)] in one
    dimension, [def rho(r, alpha): return 1/(1 + alpha[0]*r[0]**2)].  [r]
    is an array, so the divisor is a [float64] and so is the density. *)
Definition lorentz (r alpha : list Q) : result number :=
  match r, alpha with
  | x :: _, a :: _ => truediv (py_number 1) (np_float64 (1 + a * (x * x)))
  | _, _ => Err IndexError
  end.

(** The density that is one on [[-1, 1]] and zero outside,
    [def rho(r, alpha=[]): return 1 if abs(r[0]) <= 1 else 0]: the two
    values are Python [int]s. *)
Definition box (r alpha : list Q) : result number :=
  match r with
  | x :: _ => Ok (py_number (if Qle_bool (Qabs x) 1 then 1 else 0))
  | [] => Err IndexError
  end.

Definition box_density : callable := def_r_alpha_default box [].

(** The density that falls linearly from one at the origin to zero at
    distance one, [def rho(r, alpha=[]): return np.maximum(0, 1 - abs(r[0]))]:
    a [float64] computed from the array. *)
Definition tent (r alpha : list Q) : result number :=
  match r with
  | x :: _ => Ok (np_float64 (if Qle_bool (Qabs x) 1 then 1 - Qabs x else 0))
  | [] => Err IndexError
  end.

Definition tent_density : callable := def_r_alpha_default tent [].

Definition demo_tape : tape :=
  {| normals := [1%Q; 2%Q; 3%Q]; uniforms := [1 # 2; 1 # 4; 3 # 4] |}.

Definition walk_tape : tape :=
  {| normals := [1%Q; (-1)%Q; 3%Q]; uniforms := [1 # 2; 1 # 4; 3 # 4] |}.

(** A tape whose first normal deviate takes a walker from [[2]] to the
    origin. *)
Definition escape_tape : tape :=
  {| normals := [(-2)%Q]; uniforms := [1 # 2] |}.

(** A tape whose first uniform deviate is zero, the least of the unit
    interval. *)
Definition zero_tape : tape :=
  {| normals := [2%Q; 1%Q]; uniforms := [0%Q; 1 # 2] |}.

(** ** The examples of the module *)

Module Examples.

(** [prob_density(r, alpha)]: [prob = 0; return prob], a Python [int]. *)
Definition prob_density : callable := def_r_alpha (fun _ _ => Ok (py_number 0)).

End Examples.

(** * Properties *)

(** ** The replaying generator is a random state *)

Lemma unit_interval_range (x : Q) :
  (0 <= unit_interval x)%Q /\ (unit_interval x < 1)%Q.
Proof.
  unfold unit_interval, Qlt_bool.
  destruct (Qle_bool 0 x) eqn:Hlo; simpl; [| split; [apply Qle_refl | reflexivity]].
  destruct (Qle_bool 1 x) eqn:Hhi; simpl; [split; [apply Qle_refl | reflexivity] |].
  split; [by apply Qle_bool_iff |].
  apply Qnot_le_lt. intros Hle. apply Qle_bool_iff in Hle. congruence.
Qed.

Lemma tape_uniform_range (t : tape) :
  (0 <= fst (tape_uniform t))%Q /\ (fst (tape_uniform t) < 1)%Q.
Proof.
  unfold tape_uniform. destruct (uniforms t) as [| u us]; simpl.
  - split; [apply Qle_refl | reflexivity].
  - apply unit_interval_range.
Qed.

#[export] Instance tape_RandomState : RandomState tape := {|
  standard_normal := tape_normal;
  random_sample := tape_uniform;
  random_sample_range := tape_uniform_range
|}.

(** ** Outcomes and sequencing *)

Section SamplerLemmas.

Context {G : Type}.

Lemma bind_Ok_inv {A B} (c : Sampler G A) (k : A -> Sampler G B) g b g' :
  bind c k g = (Ok b, g') ->
  exists a g1, c g = (Ok a, g1) /\ k a g1 = (Ok b, g').
Proof.
  unfold bind. destruct (c g) as [[a | e] g1]; intros Hk.
  - by exists a, g1.
  - discriminate.
Qed.

Lemma bind_Ok {A B} (c : Sampler G A) (k : A -> Sampler G B) g a g1 :
  c g = (Ok a, g1) -> bind c k g = k a g1.
Proof. intros Hc. unfold bind. by rewrite Hc. Qed.

Lemma bind_Err {A B} (c : Sampler G A) (k : A -> Sampler G B) g e g1 :
  c g = (Err e, g1) -> bind c k g = (Err e, g1).
Proof. intros Hc. unfold bind. by rewrite Hc. Qed.

Lemma pure_step_Ok_inv {A} (r : result A) (g g' : G) a :
  pure_step r g = (Ok a, g') -> r = Ok a /\ g' = g.
Proof. unfold pure_step. intros Heq. by inversion Heq. Qed.

End SamplerLemmas.

Lemma result_bind_Ok_inv {A B} (r : result A) (k : A -> result B) b :
  result_bind r k = Ok b -> exists a, r = Ok a /\ k a = Ok b.
Proof. destruct r as [a | e]; simpl; [by exists a | discriminate]. Qed.

(** ** Arrays *)

Lemma broadcast_to_same (n : nat) (v : list Q) :
  length v = n -> broadcast_to n v = Ok v.
Proof. intros Hlen. unfold broadcast_to. by rewrite Hlen, Nat.eqb_refl. Qed.

Lemma broadcast_to_length (n : nat) (v row : list Q) :
  broadcast_to n v = Ok row -> length row = n.
Proof.
  unfold broadcast_to. destruct (Nat.eqb_spec (length v) n) as [Heq | Hne].
  - intros Hok. by inversion Hok; subst.
  - destruct v as [| x [| y v']]; try discriminate.
    intros Hok. inversion Hok. apply length_replicate.
Qed.

Lemma setitem_Ok_inv (a a' : ndarray2) (i : nat) (v : list Q) :
  setitem a i v = Ok a' ->
  (i < length (rows a))%nat /\
  exists row, broadcast_to (ncols a) v = Ok row /\
              a' = {| ncols := ncols a; rows := <[i := row]> (rows a) |}.
Proof.
  unfold setitem. destruct (Nat.ltb_spec i (length (rows a))) as [Hlt | Hge];
    [| discriminate].
  intros Hok. apply result_bind_Ok_inv in Hok as (row & Hrow & Hok).
  split; [done |]. exists row. split; [done |]. by inversion Hok.
Qed.

Lemma setitem_same_width (a : ndarray2) (i : nat) (v : list Q) :
  (i < length (rows a))%nat -> length v = ncols a ->
  setitem a i v = Ok {| ncols := ncols a; rows := <[i := v]> (rows a) |}.
Proof.
  intros Hlt Hlen. unfold setitem.
  destruct (Nat.ltb_spec i (length (rows a))); [| lia].
  by rewrite broadcast_to_same.
Qed.

Lemma setitem_out_of_bounds (a : ndarray2) (i : nat) (v : list Q) :
  (length (rows a) <= i)%nat -> setitem a i v = Err IndexError.
Proof.
  intros Hge. unfold setitem.
  destruct (Nat.ltb_spec i (length (rows a))); [lia | done].
Qed.

Lemma np_zeros2_Ok (n m : Z) :
  0 <= n -> 0 <= m ->
  np_zeros2 n m = Ok {| ncols := Z.to_nat m;
                        rows := replicate (Z.to_nat n) (replicate (Z.to_nat m) 0%Q) |}.
Proof.
  intros Hn Hm. unfold np_zeros2.
  destruct (Z.ltb_spec n 0); [lia |]. destruct (Z.ltb_spec m 0); [lia | done].
Qed.

Lemma np_zeros2_Ok_inv (n m : Z) (a : ndarray2) :
  np_zeros2 n m = Ok a ->
  0 <= n /\ 0 <= m /\ ncols a = Z.to_nat m /\ length (rows a) = Z.to_nat n /\
  Forall (fun row => length row = Z.to_nat m) (rows a).
Proof.
  unfold np_zeros2.
  destruct (Z.ltb_spec n 0); [discriminate |].
  destruct (Z.ltb_spec m 0); [discriminate |]. simpl.
  intros Hok. inversion Hok; subst; simpl.
  repeat split; try lia.
  - apply length_replicate.
  - apply Forall_replicate, length_replicate.
Qed.

(** ** Numbers *)

Lemma xleb_at_most (x : Q) (y : xreal) :
  xleb (Fin x) y = true <-> at_most x y.
Proof.
  destruct y as [q | | | |]; unfold xleb; simpl; try apply Qle_bool_iff; split; done.
Qed.

Lemma at_most_below (x x' : Q) (y : xreal) :
  (x <= x')%Q -> at_most x' y -> at_most x y.
Proof.
  intros Hx. destruct y as [q | | | |]; simpl; try done;
    intros Hy; by apply Qle_trans with (y := x').
Qed.

(** Between two operands of which one is numpy's, and for a divisor that is
    not zero, the division does not raise. *)
Lemma truediv_defined (x y : number) :
  kind x = Numpy \/ kind y = Numpy \/ xis_zero (val y) = false ->
  exists z, truediv x y = Ok z.
Proof.
  unfold truediv. intros Hk.
  destruct (kind x), (kind y); try by eexists.
  destruct Hk as [Hk | [Hk | Hz]]; try discriminate. rewrite Hz. by eexists.
Qed.

(** A division by zero that does not raise yields an infinity or
    not-a-number. *)
Lemma xdiv_zero_divisor (x y : xreal) :
  xis_zero y = true -> xdiv x y = PInf \/ xdiv x y = NInf \/ xdiv x y = NaN.
Proof.
  intros Hy. destruct y as [q | | | |]; try discriminate;
    destruct x as [p | | | |]; unfold xdiv, xinf, xzero; simpl in *; rewrite ?Hy;
    repeat match goal with
           | |- context [if ?b then _ else _] => destruct b
           end; tauto.
Qed.

(** ** The walker, one iteration *)

Section WalkerStep.

Context {G : Type} `{RandomState G}.

Lemma normal_fill_length (loc : list Q) (scale : Q) (g : G) :
  length (fst (normal_fill loc scale g)) = length loc.
Proof.
  revert g. induction loc as [| m loc IH]; intros g; simpl; [done |].
  destruct (standard_normal g) as [z g1].
  specialize (IH g1). destruct (normal_fill loc scale g1) as [rest g2].
  simpl in *. by rewrite IH.
Qed.

Lemma np_random_normal_Ok (loc : list Q) (scale : Q) (g : G) :
  Qle_bool 0 scale = true ->
  np_random_normal loc scale g
  = (Ok (fst (normal_fill loc scale g)), snd (normal_fill loc scale g)).
Proof.
  intros Hs. unfold np_random_normal. rewrite Hs.
  by destruct (normal_fill loc scale g).
Qed.

Lemma np_random_normal_Ok_inv (loc : list Q) (scale : Q) (g g' : G) v :
  np_random_normal loc scale g = (Ok v, g') ->
  Qle_bool 0 scale = true /\
  v = fst (normal_fill loc scale g) /\ g' = snd (normal_fill loc scale g).
Proof.
  unfold np_random_normal. destruct (Qle_bool 0 scale); [| discriminate].
  destruct (normal_fill loc scale g) as [w g1]. intros Heq. by inversion Heq.
Qed.

Lemma np_random_rand1_eq (g : G) :
  np_random_rand1 g = (Ok (fst (random_sample g)), snd (random_sample g)).
Proof. unfold np_random_rand1. by destruct (random_sample g). Qed.

(** The iteration, once the trial move is drawn and the rate is known. *)
Lemma walker_body_eq prob_density alpha tm_sigma i steps curr_point (g : G) rate :
  Qle_bool 0 tm_sigma = true ->
  acceptance_rate prob_density alpha (fst (normal_fill curr_point tm_sigma g)) curr_point
    = Ok rate ->
  walker_body prob_density alpha tm_sigma i (steps, curr_point) g
  = let next_point := fst (normal_fill curr_point tm_sigma g) in
    let g1 := snd (normal_fill curr_point tm_sigma g) in
    let chosen :=
      if xleb (Fin (fst (random_sample g1))) (val rate) then next_point
      else curr_point in
    match setitem steps i chosen with
    | Ok steps' => (Ok (steps', chosen), snd (random_sample g1))
    | Err e => (Err e, snd (random_sample g1))
    end.
Proof.
  intros Hs Hrate. unfold walker_body.
  rewrite (bind_Ok _ _ _ _ _ (np_random_normal_Ok _ _ _ Hs)).
  unfold bind at 1. unfold pure_step at 1. rewrite Hrate.
  rewrite (bind_Ok _ _ _ _ _ (np_random_rand1_eq _)). simpl.
  match goal with |- context [xleb ?a ?b] => destruct (xleb a b) end;
    unfold bind, pure_step, ret; by destruct (setitem steps i _).
Qed.

(** The same when the row exists and the current point has the width of
    the array: the iteration completes and records the chosen point. *)
Lemma walker_body_chosen prob_density alpha tm_sigma i steps curr_point (g : G) rate :
  Qle_bool 0 tm_sigma = true ->
  (i < length (rows steps))%nat ->
  length curr_point = ncols steps ->
  acceptance_rate prob_density alpha (fst (normal_fill curr_point tm_sigma g)) curr_point
    = Ok rate ->
  let next_point := fst (normal_fill curr_point tm_sigma g) in
  let g1 := snd (normal_fill curr_point tm_sigma g) in
  let chosen :=
    if xleb (Fin (fst (random_sample g1))) (val rate) then next_point
    else curr_point in
  length chosen = ncols steps /\
  walker_body prob_density alpha tm_sigma i (steps, curr_point) g
  = (Ok ({| ncols := ncols steps; rows := <[i := chosen]> (rows steps) |}, chosen),
     snd (random_sample g1)).
Proof.
  intros Hs Hi Hlen Hrate next_point g1 chosen.
  assert (Hw : length chosen = ncols steps).
  { unfold chosen, next_point.
    match goal with |- context [xleb ?a ?b] => destruct (xleb a b) end;
      [by rewrite normal_fill_length | done]. }
  split; [done |].
  rewrite (walker_body_eq _ _ _ _ _ _ _ _ Hs Hrate). cbv zeta.
  fold next_point g1 chosen. by rewrite (setitem_same_width _ _ _ Hi Hw).
Qed.

(** C2.  In an iteration of [random_walker] whose rate evaluates, one
    uniform deviate [u] of the half-open unit interval is drawn after the
    trial move, and the current point becomes the trial move if [u <= rate]
    and stays what it was otherwise; a rate of at least one (an infinite
    one too) is therefore always accepted, and a rate that is not a number
    never.  The point so chosen is the one recorded in row [i]. *)
Theorem walker_body_acceptance_rule prob_density alpha tm_sigma i steps curr_point
    (g : G) rate :
  Qle_bool 0 tm_sigma = true ->
  (i < length (rows steps))%nat ->
  length curr_point = ncols steps ->
  acceptance_rate prob_density alpha (fst (normal_fill curr_point tm_sigma g)) curr_point
    = Ok rate ->
  let next_point := fst (normal_fill curr_point tm_sigma g) in
  let g1 := snd (normal_fill curr_point tm_sigma g) in
  let u := fst (random_sample g1) in
  (0 <= u)%Q /\ (u < 1)%Q /\
  exists steps' curr_point',
    walker_body prob_density alpha tm_sigma i (steps, curr_point) g
      = (Ok (steps', curr_point'), snd (random_sample g1)) /\
    rows steps' = <[i := curr_point']> (rows steps) /\
    (at_most u (val rate) -> curr_point' = next_point) /\
    (~ at_most u (val rate) -> curr_point' = curr_point) /\
    (at_most 1 (val rate) -> curr_point' = next_point).
Proof.
  intros Hs Hi Hlen Hrate next_point g1 u.
  destruct (random_sample_range g1) as [Hu0 Hu1].
  split; [exact Hu0 |]. split; [exact Hu1 |].
  destruct (walker_body_chosen _ _ _ _ _ _ g _ Hs Hi Hlen Hrate) as [_ Hbody].
  cbv zeta in Hbody. fold next_point g1 u in Hbody.
  eexists _, _. split; [exact Hbody |]. split; [reflexivity |].
  destruct (xleb (Fin u) (val rate)) eqn:Hle.
  - split; [done |]. split; [| done].
    intros Hn. apply xleb_at_most in Hle. contradiction.
  - assert (Hnle : ~ at_most u (val rate)).
    { intros Hc. apply xleb_at_most in Hc. congruence. }
    split; [by intros Hc |]. split; [done |].
    intros H1. exfalso. apply Hnle.
    apply at_most_below with (x' := 1%Q); [by apply Qlt_le_weak | done].
Qed.

End WalkerStep.

Lemma walker_body_acceptance_rule_witness :
  let steps := {| ncols := 1; rows := [[0%Q]; [0%Q]] |} in
  let u := fst (random_sample (snd (normal_fill [0%Q] 1 demo_tape))) in
  (0 <= u)%Q /\ (u < 1)%Q /\
  exists steps' curr_point',
    walker_body flat_density [] 1 1 (steps, [0%Q]) demo_tape
      = (Ok (steps', curr_point'),
         snd (random_sample (snd (normal_fill [0%Q] 1 demo_tape)))) /\
    rows steps' = <[1%nat := curr_point']> (rows steps) /\
    (at_most u (Fin 1) -> curr_point' = fst (normal_fill [0%Q] 1 demo_tape)) /\
    (~ at_most u (Fin 1) -> curr_point' = [0%Q]) /\
    (at_most 1 (Fin 1) -> curr_point' = fst (normal_fill [0%Q] 1 demo_tape)).
Proof.
  apply (walker_body_acceptance_rule flat_density [] 1 1
           {| ncols := 1; rows := [[0%Q]; [0%Q]] |} [0%Q] demo_tape
           {| kind := Python; val := Fin (1 / 1) |}).
  - reflexivity.
  - simpl. lia.
  - reflexivity.
  - reflexivity.
Defined.

(** ** The walker on an empty trajectory *)

Section WalkerNoSteps.

Context {G : Type} `{RandomState G}.

(** C10.  With [N_steps = 0] the walker returns no trajectory: writing
    [init_point] into row 0 of an array without rows raises [IndexError],
    and the generator is left as it was, nothing having been drawn. *)
Theorem random_walker_no_steps prob_density alpha dim init_point tm_sigma (g : G) :
  0 <= dim ->
  random_walker prob_density alpha 0 dim init_point tm_sigma g = (Err IndexError, g).
Proof.
  intros Hdim. unfold random_walker.
  rewrite (bind_Ok _ _ g {| ncols := Z.to_nat dim; rows := [] |} g).
  - apply bind_Err. unfold pure_step.
    by rewrite setitem_out_of_bounds by (simpl; lia).
  - unfold pure_step. f_equal. by rewrite np_zeros2_Ok.
Qed.

End WalkerNoSteps.

Lemma random_walker_no_steps_witness :
  random_walker flat_density [] 0 1 [0%Q] 1 demo_tape = (Err IndexError, demo_tape).
Proof. apply (random_walker_no_steps flat_density [] 1 [0%Q] 1 demo_tape). lia. Defined.

(** ** The initial point *)

Section InitPoint.

Context {G : Type} `{RandomState G}.

Lemma normal_fill_replicate (n : nat) (m scale : Q) (g : G) :
  length (fst (normal_fill (replicate n m) scale g)) = n /\
  snd (normal_fill (replicate n m) scale g) = after_normals n g /\
  forall i, (i < n)%nat ->
    fst (normal_fill (replicate n m) scale g) !! i
    = Some (m + scale * nth_normal i g)%Q.
Proof.
  revert g. induction n as [| n IH]; intros g; simpl.
  - split; [done |]. split; [done |]. intros i Hi. lia.
  - unfold nth_normal in *. destruct (standard_normal g) as [z g1] eqn:Hz.
    destruct (IH g1) as (Hlen & Hg & Hnth).
    destruct (normal_fill (replicate n m) scale g1) as [rest g2]. simpl in *.
    split; [by rewrite Hlen |]. split; [done |].
    intros [| i] Hi; simpl.
    + by rewrite Hz.
    + rewrite Hz. simpl. apply Hnth. lia.
Qed.

(** C8.  [rand_init_point(system_size, dim)] returns exactly [dim]
    coordinates; coordinate [i] is the mean zero plus [system_size] times
    the standard normal deviate of draw [i], each coordinate having a draw
    of its own, and [dim] draws are consumed. *)
Theorem rand_init_point_normal (system_size : Q) (dim : Z) (g : G) :
  0 <= dim ->
  (0 <= system_size)%Q ->
  exists init_point,
    rand_init_point system_size dim g = (Ok init_point, after_normals (Z.to_nat dim) g) /\
    length init_point = Z.to_nat dim /\
    forall i, (i < Z.to_nat dim)%nat ->
      init_point !! i = Some (0 + system_size * nth_normal i g)%Q.
Proof.
  intros Hdim Hs. apply Qle_bool_iff in Hs.
  unfold rand_init_point, np_random_normal_size.
  destruct (Z.ltb_spec dim 0); [lia |].
  rewrite (np_random_normal_Ok _ _ _ Hs).
  destruct (normal_fill_replicate (Z.to_nat dim) 0 system_size g) as (Hlen & Hg & Hnth).
  eexists. split; [by rewrite Hg |]. split; [done |]. exact Hnth.
Qed.

End InitPoint.

Lemma rand_init_point_normal_witness :
  exists init_point,
    rand_init_point (2 # 1) 3 demo_tape
      = (Ok init_point, after_normals (Z.to_nat 3) demo_tape) /\
    length init_point = Z.to_nat 3 /\
    forall i, (i < Z.to_nat 3)%nat ->
      init_point !! i = Some (0 + (2 # 1) * nth_normal i demo_tape)%Q.
Proof.
  apply (rand_init_point_normal (2 # 1) 3 demo_tape).
  - lia.
  - discriminate.
Defined.

(** ** The walker, the whole trajectory *)

Section WalkerTrajectory.

Context {G : Type} `{RandomState G}.

Variable prob_density : callable.
Variable alpha : list Q.
Variable tm_sigma : Q.

(** What an iteration that completes has done. *)
Lemma walker_body_Ok_inv i steps curr_point (g : G) steps' curr_point' g' :
  walker_body prob_density alpha tm_sigma i (steps, curr_point) g
    = (Ok (steps', curr_point'), g') ->
  length curr_point = ncols steps ->
  (i < length (rows steps))%nat /\
  ncols steps' = ncols steps /\
  rows steps' = <[i := curr_point']> (rows steps) /\
  length curr_point' = ncols steps /\
  (curr_point' = curr_point \/
   accepted_move prob_density alpha tm_sigma curr_point curr_point').
Proof.
  intros Hbody Hlen.
  assert (Hpre : Qle_bool 0 tm_sigma = true /\
                 exists rate, acceptance_rate prob_density alpha
                   (fst (normal_fill curr_point tm_sigma g)) curr_point = Ok rate).
  { unfold walker_body in Hbody.
    apply bind_Ok_inv in Hbody as (next & g1 & Hnext & Hbody).
    apply np_random_normal_Ok_inv in Hnext as (Hs & -> & ->).
    apply bind_Ok_inv in Hbody as (rate & g2 & Hrate & _).
    apply pure_step_Ok_inv in Hrate as [Hrate _]. eauto. }
  destruct Hpre as (Hs & rate & Hrate).
  rewrite (walker_body_eq _ _ _ _ _ _ _ _ Hs Hrate) in Hbody. cbv zeta in Hbody.
  set (next := fst (normal_fill curr_point tm_sigma g)) in *.
  set (g1 := snd (normal_fill curr_point tm_sigma g)) in *.
  assert (Hw : length next = ncols steps).
  { unfold next. by rewrite normal_fill_length. }
  destruct (xleb (Fin (fst (random_sample g1))) (val rate)) eqn:Hle;
    match type of Hbody with
    | context [setitem steps i ?v] => destruct (setitem steps i v) as [a | e] eqn:Hset
    end; try discriminate; inversion Hbody; subst a curr_point' g'; clear Hbody;
    apply setitem_Ok_inv in Hset as (Hi & row & Hrow & ->); simpl.
  - rewrite (broadcast_to_same _ _ Hw) in Hrow. inversion Hrow; subst row.
    repeat (split; [done |]). right. exists g, rate.
    split; [done |]. split; [done |]. by apply xleb_at_most.
  - rewrite (broadcast_to_same _ _ Hlen) in Hrow. inversion Hrow; subst row.
    repeat (split; [done |]). by left.
Qed.

(** The invariant of the loop at the head of iteration [k]: the rows
    written so far are chained by moves of the walker, and the last of them
    is the current point. *)
Lemma walker_loop_chained n k steps curr_point (g : G) steps' curr_point' g' :
  walker_loop prob_density alpha tm_sigma (seq k n) (steps, curr_point) g
    = (Ok (steps', curr_point'), g') ->
  length curr_point = ncols steps ->
  rows steps !! pred k = Some curr_point ->
  (forall j p q, (S j < k)%nat ->
     rows steps !! j = Some p -> rows steps !! S j = Some q ->
     q = p \/ accepted_move prob_density alpha tm_sigma p q) ->
  forall j p q, (S j < k + n)%nat ->
    rows steps' !! j = Some p -> rows steps' !! S j = Some q ->
    q = p \/ accepted_move prob_density alpha tm_sigma p q.
Proof.
  revert k steps curr_point g.
  induction n as [| n IH]; intros k steps curr_point g Hloop Hlen Hlast Hchain; simpl in Hloop.
  - unfold ret in Hloop. inversion Hloop; subst.
    intros j p q Hj. apply Hchain. lia.
  - apply bind_Ok_inv in Hloop as ([steps1 curr1] & g1 & Hbody & Hloop).
    apply walker_body_Ok_inv in Hbody as (Hk & Hcols & Hrows & Hlen1 & Hmove);
      [| done].
    intros j p q Hj. replace (k + S n)%nat with (S k + n)%nat in Hj by lia.
    revert j p q Hj. apply (IH (S k) steps1 curr1 g1 Hloop).
    + by rewrite Hcols.
    + simpl. rewrite Hrows. by apply list_lookup_insert_eq.
    + intros j p q Hj. rewrite Hrows.
      destruct (decide (S j = k)) as [<- | Hne].
      * rewrite list_lookup_insert_eq by done.
        rewrite list_lookup_insert_ne by lia.
        simpl in Hlast. intros Hp Hq. inversion Hq; subst q.
        rewrite Hlast in Hp. by inversion Hp; subst p.
      * rewrite !list_lookup_insert_ne by lia. apply Hchain. lia.
Qed.

(** The shape of the array is that of [np.zeros([N_steps,dim])] through
    the loop. *)
Lemma walker_loop_shape range steps curr_point (g : G) steps' curr_point' g' :
  walker_loop prob_density alpha tm_sigma range (steps, curr_point) g
    = (Ok (steps', curr_point'), g') ->
  length curr_point = ncols steps ->
  Forall (fun row => length row = ncols steps) (rows steps) ->
  ncols steps' = ncols steps /\
  length (rows steps') = length (rows steps) /\
  Forall (fun row => length row = ncols steps) (rows steps').
Proof.
  revert steps curr_point g.
  induction range as [| i range IH]; intros steps curr_point g Hloop Hlen Hall;
    simpl in Hloop.
  - unfold ret in Hloop. by inversion Hloop; subst.
  - apply bind_Ok_inv in Hloop as ([steps1 curr1] & g1 & Hbody & Hloop).
    apply walker_body_Ok_inv in Hbody as (Hi & Hcols & Hrows & Hlen1 & _);
      [| done].
    apply IH in Hloop as (Hc & Hl & Ha).
    + rewrite Hc, Hl, Hcols, Hrows, length_insert. rewrite Hcols in Ha. done.
    + by rewrite Hcols.
    + rewrite Hcols, Hrows. apply Forall_insert; done.
Qed.

(** What [random_walker] has done before the loop when it returns. *)
Lemma random_walker_Ok_inv N_steps dim init_point (g : G) steps g' :
  random_walker prob_density alpha N_steps dim init_point tm_sigma g = (Ok steps, g') ->
  length init_point = Z.to_nat dim ->
  exists steps0 curr_point,
    ncols steps0 = Z.to_nat dim /\
    length (rows steps0) = Z.to_nat N_steps /\
    Forall (fun row => length row = Z.to_nat dim) (rows steps0) /\
    rows steps0 !! 0%nat = Some init_point /\
    walker_loop prob_density alpha tm_sigma (seq 0 (Z.to_nat N_steps))
      (steps0, init_point) g = (Ok (steps, curr_point), g').
Proof.
  intros Hrun Hlen. unfold random_walker in Hrun.
  apply bind_Ok_inv in Hrun as (zeros & g1 & Hz & Hrun).
  apply pure_step_Ok_inv in Hz as [Hz ->].
  apply np_zeros2_Ok_inv in Hz as (HN & Hdim & Hcols & Hrows & Hall).
  apply bind_Ok_inv in Hrun as (steps0 & g1 & Hset & Hrun).
  apply pure_step_Ok_inv in Hset as [Hset ->].
  apply setitem_Ok_inv in Hset as (H0 & row & Hrow & ->).
  rewrite broadcast_to_same in Hrow by congruence. inversion Hrow; subst row.
  apply bind_Ok_inv in Hrun as ([steps1 curr1] & g1 & Hloop & Hret).
  unfold ret in Hret. inversion Hret; subst. simpl.
  exists {| ncols := ncols zeros; rows := <[0%nat := init_point]> (rows zeros) |}, curr1.
  simpl. rewrite length_insert.
  split; [done |]. split; [done |].
  split; [by apply Forall_insert |].
  split; [by apply list_lookup_insert_eq |]. exact Hloop.
Qed.

(** C3.  In a trajectory that [random_walker] returns, a row and the row
    after it are either the same configuration or the later one is a trial
    move drawn from the earlier one by [np.random.normal] with scale
    [tm_sigma] that passed the acceptance test. *)
Theorem random_walker_consecutive N_steps dim init_point (g : G) steps g' :
  length init_point = Z.to_nat dim ->
  random_walker prob_density alpha N_steps dim init_point tm_sigma g = (Ok steps, g') ->
  forall i p q,
    rows steps !! i = Some p -> rows steps !! S i = Some q ->
    q = p \/ accepted_move prob_density alpha tm_sigma p q.
Proof.
  intros Hlen Hrun.
  apply random_walker_Ok_inv in Hrun
    as (steps0 & curr & Hcols & Hrows & Hall & Hfirst & Hloop); [| done].
  intros i p q Hp Hq.
  destruct (walker_loop_shape _ _ _ _ _ _ _ Hloop) as (_ & Hl & _);
    [congruence | by rewrite Hcols |].
  apply (walker_loop_chained _ _ _ _ _ _ _ _ Hloop) with (j := i); try done.
  - congruence.
  - intros j p' q' Hj. lia.
  - apply lookup_lt_Some in Hq. simpl. lia.
Qed.

(** The part of the shape that the trajectory always has: [N_steps] rows
    of [dim] coordinates. *)
Lemma random_walker_shape N_steps dim init_point (g : G) steps g' :
  length init_point = Z.to_nat dim ->
  random_walker prob_density alpha N_steps dim init_point tm_sigma g = (Ok steps, g') ->
  length (rows steps) = Z.to_nat N_steps /\
  Forall (fun row => length row = Z.to_nat dim) (rows steps).
Proof.
  intros Hlen Hrun.
  apply random_walker_Ok_inv in Hrun
    as (steps0 & curr & Hcols & Hrows & Hall & Hfirst & Hloop); [| done].
  destruct (walker_loop_shape _ _ _ _ _ _ _ Hloop) as (_ & Hl & Ha).
  - congruence.
  - by rewrite Hcols.
  - split; [congruence |]. by rewrite Hcols in Ha.
Qed.

(** Iterations [k], [k+1], ... leave the rows before [k] alone. *)
Lemma walker_loop_earlier_rows n k steps curr_point (g : G) steps' curr_point' g' :
  walker_loop prob_density alpha tm_sigma (seq k n) (steps, curr_point) g
    = (Ok (steps', curr_point'), g') ->
  length curr_point = ncols steps ->
  forall j, (j < k)%nat -> rows steps' !! j = rows steps !! j.
Proof.
  revert k steps curr_point g.
  induction n as [| n IH]; intros k steps curr_point g Hloop Hlen j Hj; simpl in Hloop.
  - unfold ret in Hloop. by inversion Hloop; subst.
  - apply bind_Ok_inv in Hloop as ([steps1 curr1] & g1 & Hbody & Hloop).
    apply walker_body_Ok_inv in Hbody as (Hk & Hcols & Hrows & Hlen1 & _);
      [| done].
    rewrite (IH (S k) steps1 curr1 g1 Hloop) by (congruence || lia).
    rewrite Hrows. apply list_lookup_insert_ne. lia.
Qed.

(** The first row of a returned trajectory is the point chosen in iteration
    0: [init_point] if the first trial move was rejected, the trial move
    if it was accepted. *)
Lemma random_walker_first_row N_steps dim init_point (g : G) steps g' :
  length init_point = Z.to_nat dim ->
  random_walker prob_density alpha N_steps dim init_point tm_sigma g = (Ok steps, g') ->
  exists p,
    rows steps !! 0%nat = Some p /\
    (p = init_point \/ accepted_move prob_density alpha tm_sigma init_point p).
Proof.
  intros Hlen Hrun.
  apply random_walker_Ok_inv in Hrun
    as (steps0 & curr & Hcols & Hrows & Hall & Hfirst & Hloop); [| done].
  destruct (Z.to_nat N_steps) as [| n] eqn:HN.
  { apply lookup_lt_Some in Hfirst. lia. }
  simpl in Hloop.
  apply bind_Ok_inv in Hloop as ([steps1 curr1] & g1 & Hbody & Hloop).
  apply walker_body_Ok_inv in Hbody as (H0 & Hcols1 & Hrows1 & Hlen1 & Hmove);
    [| congruence].
  exists curr1. split; [| done].
  rewrite (walker_loop_earlier_rows _ _ _ _ _ _ _ _ Hloop) by (congruence || lia).
  rewrite Hrows1. by apply list_lookup_insert_eq.
Qed.

End WalkerTrajectory.

(** The walk from [[0]] over [walk_tape] is [[1]], [[0]], [[0]]: two
    accepted moves inside the box, then a rejected one out of it. *)
Lemma random_walker_consecutive_witness :
  random_walker box_density [] 3 1 [0%Q] 1 walk_tape
  = (Ok {| ncols := 1; rows := [[1%Q]; [0%Q]; [0%Q]] |},
     {| normals := []; uniforms := [] |}) /\
  ([0%Q] = [1%Q] \/ accepted_move box_density [] 1 [1%Q] [0%Q]).
Proof.
  split; [reflexivity |].
  apply (fun Hlen Hrun =>
           random_walker_consecutive box_density [] 1 3 1 [0%Q] walk_tape
             {| ncols := 1; rows := [[1%Q]; [0%Q]; [0%Q]] |}
             {| normals := []; uniforms := [] |} Hlen Hrun 0%nat).
  - reflexivity.
  - reflexivity.
  - reflexivity.
  - reflexivity.
Defined.

(** ** Errors of the walker *)

Section WalkerErrors.

Context {G : Type} `{RandomState G}.

Lemma walker_loop_app prob_density alpha tm_sigma range1 range2 st (g : G) :
  walker_loop prob_density alpha tm_sigma (range1 ++ range2) st g
  = bind (walker_loop prob_density alpha tm_sigma range1 st)
         (walker_loop prob_density alpha tm_sigma range2) g.
Proof.
  revert st g. induction range1 as [| i range1 IH]; intros st g; simpl.
  - done.
  - unfold bind.
    destruct (walker_body prob_density alpha tm_sigma i st g) as [[st1 | e] g1]; [| done].
    by rewrite IH.
Qed.

(** The iteration at a point where the density is a Python number equal to
    zero, the density of the trial move being a Python number too. *)
Lemma walker_body_zero_density prob_density alpha tm_sigma i steps curr_point
    (g : G) num den :
  Qle_bool 0 tm_sigma = true ->
  call2 prob_density (fst (normal_fill curr_point tm_sigma g)) alpha = Ok num ->
  call1 prob_density curr_point = Ok den ->
  kind num = Python -> kind den = Python ->
  xis_zero (val den) = true ->
  walker_body prob_density alpha tm_sigma i (steps, curr_point) g
  = (Err ZeroDivisionError, snd (normal_fill curr_point tm_sigma g)).
Proof.
  intros Hs Hnum Hden Hkn Hkd Hd. unfold walker_body.
  rewrite (bind_Ok _ _ _ _ _ (np_random_normal_Ok _ _ _ Hs)).
  apply bind_Err. unfold pure_step, acceptance_rate. rewrite Hnum, Hden. simpl.
  unfold truediv. by rewrite Hkn, Hkd, Hd.
Qed.

(** The iteration with a density of the documented signature: the call
    with the point alone is one argument short. *)
Lemma walker_body_missing_alpha f alpha tm_sigma i steps curr_point (g : G) v :
  Qle_bool 0 tm_sigma = true ->
  f (fst (normal_fill curr_point tm_sigma g)) alpha = Ok v ->
  walker_body (def_r_alpha f) alpha tm_sigma i (steps, curr_point) g
  = (Err TypeError, snd (normal_fill curr_point tm_sigma g)).
Proof.
  intros Hs Hnum. unfold walker_body.
  rewrite (bind_Ok _ _ _ _ _ (np_random_normal_Ok _ _ _ Hs)).
  apply bind_Err. unfold pure_step, acceptance_rate. simpl. by rewrite Hnum.
Qed.

(** An exception of iteration [k] is the outcome of [random_walker]. *)
Lemma random_walker_raises_at prob_density alpha N_steps dim init_point tm_sigma
    (g : G) k steps curr_point g_k e g_e :
  (k < Z.to_nat N_steps)%nat ->
  random_walker_upto prob_density alpha N_steps dim init_point tm_sigma k g
    = (Ok (steps, curr_point), g_k) ->
  walker_body prob_density alpha tm_sigma k (steps, curr_point) g_k = (Err e, g_e) ->
  random_walker prob_density alpha N_steps dim init_point tm_sigma g = (Err e, g_e).
Proof.
  intros Hk Hupto Hbody. unfold random_walker_upto in Hupto. unfold random_walker.
  apply bind_Ok_inv in Hupto as (zeros & g1 & Hz & Hupto). rewrite (bind_Ok _ _ _ _ _ Hz).
  apply bind_Ok_inv in Hupto as (steps0 & g2 & Hset & Hupto).
  rewrite (bind_Ok _ _ _ _ _ Hset).
  apply bind_Err.
  replace (Z.to_nat N_steps) with (k + S (Z.to_nat N_steps - S k))%nat by lia.
  rewrite seq_app, walker_loop_app. rewrite (bind_Ok _ _ _ _ _ Hupto). simpl.
  by apply bind_Err.
Qed.

(** C1.  With a density of the documented signature [function(r, alpha)],
    the walker does not get to a rate: in the first iteration the density of
    the current point is called without [alpha], which raises [TypeError]
    once the density of the trial move has evaluated. *)
Theorem random_walker_missing_alpha f alpha N_steps dim init_point tm_sigma (g : G) v :
  1 <= N_steps ->
  0 <= dim ->
  length init_point = Z.to_nat dim ->
  Qle_bool 0 tm_sigma = true ->
  f (fst (normal_fill init_point tm_sigma g)) alpha = Ok v ->
  random_walker (def_r_alpha f) alpha N_steps dim init_point tm_sigma g
  = (Err TypeError, snd (normal_fill init_point tm_sigma g)).
Proof.
  intros HN Hdim Hlen Hs Hnum.
  eapply (random_walker_raises_at _ _ _ _ _ _ _ 0%nat); [lia | |].
  - unfold random_walker_upto.
    rewrite (bind_Ok _ _ g _ g (f_equal (fun r => (r, g)) (np_zeros2_Ok N_steps dim ltac:(lia) Hdim))).
    unfold bind, pure_step. rewrite setitem_same_width; simpl.
    + reflexivity.
    + rewrite length_replicate. lia.
    + done.
  - by apply walker_body_missing_alpha with (v := v).
Qed.

End WalkerErrors.

Lemma random_walker_missing_alpha_witness :
  random_walker (def_r_alpha lorentz) [1%Q] 2 1 [0%Q] 1 demo_tape
  = (Err TypeError, snd (normal_fill [0%Q] 1 demo_tape)).
Proof.
  apply (random_walker_missing_alpha lorentz [1%Q] 2 1 [0%Q] 1 demo_tape
           {| kind := Numpy; val := Fin (1 / (1 + 1 * (1 * 1))) |}).
  - lia.
  - lia.
  - reflexivity.
  - reflexivity.
  - reflexivity.
Defined.

(** With a density whose [alpha] has a default, the rate is a ratio of
    densities at two different parameter vectors: here [alpha = [1]] in the
    numerator and the default [[3]] in the denominator. *)
Example acceptance_rate_default_alpha :
  acceptance_rate (def_r_alpha_default lorentz [3%Q]) [1%Q] [0%Q] [1%Q]
  = Ok (np_float64 (4 # 1)) /\
  acceptance_rate_spec (def_r_alpha_default lorentz [3%Q]) [1%Q] [0%Q] [1%Q]
  = Ok (np_float64 (2 # 1)).
Proof. split; vm_compute; reflexivity. Qed.

(** C4.  The first row of the returned trajectory is not [init_point] when
    the first trial move is accepted: iteration 0 writes row 0 again.  Here
    the walker starts at [[0]], the trial move is [[1]], and the trajectory
    of one step is [[[1]]]. *)
Example random_walker_first_row_overwritten :
  random_walker flat_density [] 1 1 [0%Q] 1 demo_tape
  = (Ok {| ncols := 1; rows := [[1%Q]] |},
     {| normals := [2%Q; 3%Q]; uniforms := [1 # 4; 3 # 4] |}) /\
  rows {| ncols := 1; rows := [[1%Q]] |} !! 0%nat <> Some [0%Q].
Proof. split; [reflexivity | discriminate]. Qed.

(** ** The walker returns *)

Section WalkerReturns.

Context {G : Type} `{RandomState G}.

Variable prob_density : callable.
Variable alpha : list Q.
Variable tm_sigma : Q.

Hypothesis sigma_nonneg : Qle_bool 0 tm_sigma = true.
Hypothesis density_alpha : forall r, exists v, call2 prob_density r alpha = Ok v.
Hypothesis density_alone :
  forall r, exists d, call1 prob_density r = Ok d /\ xis_zero (val d) = false.

Lemma acceptance_rate_defined next_point curr_point :
  exists rate, acceptance_rate prob_density alpha next_point curr_point = Ok rate.
Proof.
  destruct (density_alpha next_point) as [v Hv].
  destruct (density_alone curr_point) as (d & Hd & Hnz).
  unfold acceptance_rate. rewrite Hv, Hd. simpl.
  apply truediv_defined. by right; right.
Qed.

Lemma walker_loop_returns range steps curr_point (g : G) :
  Forall (fun i => (i < length (rows steps))%nat) range ->
  length curr_point = ncols steps ->
  exists st' g',
    walker_loop prob_density alpha tm_sigma range (steps, curr_point) g = (Ok st', g').
Proof.
  revert steps curr_point g.
  induction range as [| i range IH]; intros steps curr_point g Hrange Hlen; simpl.
  - by eexists _, _.
  - apply Forall_cons in Hrange as [Hi Hrange].
    destruct (acceptance_rate_defined (fst (normal_fill curr_point tm_sigma g)) curr_point)
      as [rate Hrate].
    destruct (walker_body_chosen _ _ _ _ _ _ g _ sigma_nonneg Hi Hlen Hrate)
      as [Hw Hbody].
    cbv zeta in Hw, Hbody. rewrite (bind_Ok _ _ _ _ _ Hbody).
    apply IH; simpl.
    + by rewrite length_insert.
    + done.
Qed.

(** With a non-negative [tm_sigma], an [init_point] of [dim] coordinates
    and a density that evaluates everywhere and is nowhere zero,
    [random_walker] returns a trajectory. *)
Lemma random_walker_returns N_steps dim init_point (g : G) :
  1 <= N_steps ->
  0 <= dim ->
  length init_point = Z.to_nat dim ->
  exists steps g',
    random_walker prob_density alpha N_steps dim init_point tm_sigma g = (Ok steps, g').
Proof.
  intros HN Hdim Hlen. unfold random_walker.
  rewrite (bind_Ok _ _ g _ g
             (f_equal (fun r => (r, g)) (np_zeros2_Ok N_steps dim ltac:(lia) Hdim))).
  unfold bind at 1. unfold pure_step at 1.
  rewrite setitem_same_width; simpl; [| rewrite length_replicate; lia | done].
  match goal with
  | |- context [walker_loop _ _ _ ?range (?steps, ?curr)] =>
      destruct (walker_loop_returns range steps curr g) as (st' & g' & Hloop)
  end.
  - apply Forall_forall. intros i Hi. apply list_elem_of_In, in_seq in Hi.
    simpl. rewrite length_insert, length_replicate. lia.
  - done.
  - rewrite (bind_Ok _ _ _ _ _ Hloop). by eexists _, _.
Qed.

End WalkerReturns.

(** ** The step-size tuner *)

Section TunerProperties.

Context {G : Type} `{RandomState G}.

(** Both tests of a pass raise: the right operand of [&] is a float. *)
Lemma tuner_tests_raise (rate_av tol : number) :
  tuner_test_above rate_av tol = Err TypeError /\
  tuner_test_below rate_av tol = Err TypeError.
Proof. split; reflexivity. Qed.

(** A pass of the [while] loop never reaches [iter += 1]: either the batch
    of trial moves raises, or the first test after it raises [TypeError]. *)
Lemma tuner_pass_raises prob_density alpha tol st (g : G) :
  match tuner_batch prob_density alpha (curr_tm_sigma st) 100
          (curr_point st, total_rate st) g with
  | (Ok _, g') => tuner_pass prob_density alpha tol st g = (Err TypeError, g')
  | (Err e, g') => tuner_pass prob_density alpha tol st g = (Err e, g')
  end.
Proof.
  unfold tuner_pass, bind.
  destruct (tuner_batch prob_density alpha (curr_tm_sigma st) 100
              (curr_point st, total_rate st) g) as [[b | e] g']; [| done].
  destruct (truediv_defined (snd b) (py_number 100)) as [average Havg];
    [by right; right |].
  unfold pure_step at 1. by rewrite Havg.
Qed.

Lemma tuner_pass_not_ok prob_density alpha tol st (g : G) :
  is_ok (fst (tuner_pass prob_density alpha tol st g)) = false.
Proof.
  pose proof (tuner_pass_raises prob_density alpha tol st g) as Hpass.
  destruct (tuner_batch prob_density alpha (curr_tm_sigma st) 100
              (curr_point st, total_rate st) g) as [[b | e] g'];
    by rewrite Hpass.
Qed.

(** The fuel of [tuner_while] is out only when the loop test fails. *)
Lemma tuner_while_fuel (Niter iter : Z) :
  Z.to_nat (Niter + 1 - iter) = 0%nat -> (iter <=? Niter) = false.
Proof. intros Hfuel. apply Z.leb_gt. lia. Qed.

(** C6.  With an iteration budget of at least one, [find_optimal_tm_sigma]
    returns no sigma at all, converged or not: the call ends in an
    exception. *)
Theorem find_optimal_tm_sigma_raises prob_density alpha dim tm_sigma_init Niter tol
    (g : G) :
  1 <= Niter ->
  is_ok (fst (find_optimal_tm_sigma prob_density alpha dim tm_sigma_init Niter tol g))
  = false.
Proof.
  intros HN. unfold find_optimal_tm_sigma, bind, pure_step.
  destruct (np_zeros1 dim) as [zeros | e]; [| done].
  destruct (Z.to_nat (Niter + 1 - 1)) as [| fuel] eqn:Hfuel; [lia |].
  simpl. destruct (Z.leb_spec 1 Niter); [| lia].
  unfold bind.
  match goal with
  | |- context [tuner_pass ?pd ?a ?t ?st g] =>
      pose proof (tuner_pass_not_ok pd a t st g) as Hpass;
      destruct (tuner_pass pd a t st g) as [[st' | e] g']
  end; [discriminate | done].
Qed.

(** Without a budget nothing is tried and the initial sigma is returned. *)
Lemma find_optimal_tm_sigma_no_budget prob_density alpha dim tm_sigma_init Niter tol
    (g : G) :
  Niter <= 0 ->
  0 <= dim ->
  find_optimal_tm_sigma prob_density alpha dim tm_sigma_init Niter tol g
  = (Ok tm_sigma_init, g).
Proof.
  intros HN Hdim. unfold find_optimal_tm_sigma, bind, pure_step, np_zeros1.
  destruct (Z.ltb_spec dim 0); [lia |].
  replace (Z.to_nat (Niter + 1 - 1)) with 0%nat by lia. done.
Qed.

End TunerProperties.

Lemma find_optimal_tm_sigma_raises_witness :
  is_ok (fst (find_optimal_tm_sigma flat_density [] 1 1 1 (1 # 20) demo_tape)) = false.
Proof. apply (find_optimal_tm_sigma_raises flat_density [] 1 1 1 (1 # 20) demo_tape). lia. Defined.

(** The failing call in full: one batch of a hundred trial moves, then
    [TypeError] from the first test. *)
Example find_optimal_tm_sigma_TypeError :
  find_optimal_tm_sigma flat_density [] 1 1 1 (1 # 20) demo_tape
  = (Err TypeError, {| normals := []; uniforms := [] |}).
Proof. vm_compute. reflexivity. Qed.

(** ** The integration driver *)

(** C5.  [MC_integration] with [N_skip = N_steps = 5]: the call raises
    nothing, and what it returns is [None], not a pair of an estimate and
    its standard error. *)
Example MC_integration_no_error_no_pair :
  5 >= 5 /\
  MC_integration flat_density flat_density [] 5 1 5 1 = Ok PyNone /\
  is_ok (MC_integration flat_density flat_density [] 5 1 5 1) = true /\
  forall estimate stderr,
    MC_integration flat_density flat_density [] 5 1 5 1
    <> Ok (PyTuple [PyNum estimate; PyNum stderr]).
Proof.
  split; [lia |]. split; [reflexivity |]. split; [reflexivity |].
  intros estimate stderr. discriminate.
Qed.

(** ** The optimizer *)

Lemma eq_str_false (v : pyvalue) (s : string) :
  v <> PyStr s ->
  (forall a, v = PyArray a -> length a = 1%nat) ->
  eq_str v s = Ok false.
Proof.
  intros Hne Harr. destruct v as [| x | t | a | items]; simpl; try done.
  - destruct (String.eqb_spec t s) as [-> | Hts]; [done | done].
  - by rewrite (Harr a eq_refl).
Qed.

(** C9.  With a method that is neither ["scan"] nor ["steepest_descent"]
    (a string, or any value that is not an array of a size other than one,
    whose comparison with a string has no truth value), [update_alpha]
    returns normally, leaves [alpha] and [method] as they were and sets
    [converged]; no exception reports the method. *)
Theorem update_alpha_unknown_method (self : Optimizer) (args : pyvalue) :
  method self <> PyStr "scan" ->
  method self <> PyStr "steepest_descent" ->
  (forall a, method self = PyArray a -> length a = 1%nat) ->
  update_alpha self args
  = (Ok tt, {| method := method self; converged := true; alpha := alpha self |}).
Proof.
  intros Hscan Hsd Harr. unfold update_alpha.
  by rewrite (eq_str_false _ _ Hscan Harr), (eq_str_false _ _ Hsd Harr).
Qed.

Lemma update_alpha_unknown_method_witness :
  update_alpha {| method := PyStr "newton"; converged := false;
                  alpha := PyArray [1 # 2] |} PyNone
  = (Ok tt, {| method := PyStr "newton"; converged := true;
               alpha := PyArray [1 # 2] |}).
Proof.
  apply (update_alpha_unknown_method
           {| method := PyStr "newton"; converged := false;
              alpha := PyArray [1 # 2] |} PyNone).
  - discriminate.
  - discriminate.
  - intros a Ha. discriminate Ha.
Defined.

(** The two known methods raise before anything is assigned. *)
Lemma update_alpha_known_methods (self : Optimizer) (args : pyvalue) :
  (method self = PyStr "scan" -> update_alpha self args = (Err NameError, self)) /\
  (method self = PyStr "steepest_descent" ->
   update_alpha self args = (Err AttributeError, self)).
Proof. split; intros Hm; unfold update_alpha; by rewrite Hm. Qed.

(** An array of a size other than one as method: the first test has no
    truth value and raises before anything is assigned. *)
Lemma update_alpha_array_method (self : Optimizer) (args : pyvalue) (a : list Q) :
  method self = PyArray a -> length a <> 1%nat ->
  update_alpha self args = (Err ValueError, self).
Proof.
  intros Hm Hlen. unfold update_alpha. rewrite Hm. simpl.
  by destruct (Nat.eqb_spec (length a) 1).
Qed.

(** * Further properties of the walker *)

Section WalkerArguments.

Context {G : Type} `{RandomState G}.

(** X1.  A negative [N_steps] or [dim] makes [np.zeros] raise
    [ValueError]; nothing is drawn. *)
Theorem random_walker_negative_shape prob_density alpha N_steps dim init_point
    tm_sigma (g : G) :
  N_steps < 0 \/ dim < 0 ->
  random_walker prob_density alpha N_steps dim init_point tm_sigma g
  = (Err ValueError, g).
Proof.
  intros Hneg. unfold random_walker. apply bind_Err.
  unfold pure_step, np_zeros2. f_equal.
  destruct (Z.ltb_spec N_steps 0); [done |].
  destruct (Z.ltb_spec dim 0); [done | lia].
Qed.

Lemma broadcast_to_mismatch (n : nat) (v : list Q) :
  length v <> n -> length v <> 1%nat -> broadcast_to n v = Err ValueError.
Proof.
  intros Hn H1. unfold broadcast_to.
  destruct (Nat.eqb_spec (length v) n); [done |].
  by destruct v as [| x [| y v']].
Qed.

(** The array before the loop, when the shape is valid and [init_point]
    has [dim] coordinates. *)
Lemma random_walker_start (N_steps dim : Z) (init_point : list Q) :
  1 <= N_steps -> 0 <= dim -> length init_point = Z.to_nat dim ->
  (let? steps := np_zeros2 N_steps dim in setitem steps 0 init_point)
  = Ok {| ncols := Z.to_nat dim;
          rows := <[0%nat := init_point]>
                    (replicate (Z.to_nat N_steps) (replicate (Z.to_nat dim) 0%Q)) |}.
Proof.
  intros HN Hdim Hlen. rewrite np_zeros2_Ok by lia. simpl.
  rewrite setitem_same_width; simpl; [done | | done].
  rewrite length_replicate. lia.
Qed.

Lemma random_walker_upto_zero prob_density alpha N_steps dim init_point tm_sigma (g : G) :
  random_walker_upto prob_density alpha N_steps dim init_point tm_sigma 0 g
  = (match (let? steps := np_zeros2 N_steps dim in setitem steps 0 init_point) with
     | Ok steps => Ok (steps, init_point)
     | Err e => Err e
     end, g).
Proof.
  unfold random_walker_upto, bind, pure_step.
  destruct (np_zeros2 N_steps dim) as [zeros | e]; simpl; [| done].
  by destruct (setitem zeros 0 init_point).
Qed.

(** X2.  An [init_point] that has neither [dim] coordinates nor one cannot
    be written into row 0: the walker raises [ValueError] before anything
    is drawn. *)
Theorem random_walker_init_point_mismatch prob_density alpha N_steps dim init_point
    tm_sigma (g : G) :
  1 <= N_steps ->
  0 <= dim ->
  length init_point <> Z.to_nat dim ->
  length init_point <> 1%nat ->
  random_walker prob_density alpha N_steps dim init_point tm_sigma g
  = (Err ValueError, g).
Proof.
  intros HN Hdim Hlen H1. unfold random_walker.
  rewrite (bind_Ok _ _ g _ g
             (f_equal (fun r => (r, g)) (np_zeros2_Ok N_steps dim ltac:(lia) Hdim))).
  apply bind_Err. unfold pure_step, setitem. simpl. f_equal.
  rewrite length_replicate.
  destruct (Nat.ltb_spec 0 (Z.to_nat N_steps)); [| lia].
  by rewrite broadcast_to_mismatch.
Qed.

(** X3.  A negative [tm_sigma] is refused by [np.random.normal] in the
    first iteration: the walker raises [ValueError] and nothing is drawn. *)
Theorem random_walker_negative_sigma prob_density alpha N_steps dim init_point
    tm_sigma (g : G) :
  1 <= N_steps ->
  0 <= dim ->
  length init_point = Z.to_nat dim ->
  (tm_sigma < 0)%Q ->
  random_walker prob_density alpha N_steps dim init_point tm_sigma g
  = (Err ValueError, g).
Proof.
  intros HN Hdim Hlen Hs.
  apply (random_walker_raises_at _ _ _ _ _ _ _ 0%nat
           {| ncols := Z.to_nat dim;
              rows := <[0%nat := init_point]>
                        (replicate (Z.to_nat N_steps) (replicate (Z.to_nat dim) 0%Q)) |}
           init_point g); [lia | |].
  - by rewrite random_walker_upto_zero, random_walker_start.
  - unfold walker_body. apply bind_Err. unfold np_random_normal.
    destruct (Qle_bool 0 tm_sigma) eqn:Hle; [| done].
    apply Qle_bool_iff in Hle. exfalso. by apply (Qlt_not_le _ _ Hs).
Qed.

(** X4.  Whatever the computation of the rate raises in an iteration (an
    exception of the density itself, a missing argument, a division by
    zero between Python numbers) is the outcome of [random_walker]; the
    generator has then given the trial move of that iteration and no
    uniform deviate for it. *)
Theorem random_walker_rate_error prob_density alpha N_steps dim init_point tm_sigma
    (g : G) k steps curr_point g_k e :
  (k < Z.to_nat N_steps)%nat ->
  Qle_bool 0 tm_sigma = true ->
  random_walker_upto prob_density alpha N_steps dim init_point tm_sigma k g
    = (Ok (steps, curr_point), g_k) ->
  acceptance_rate prob_density alpha (fst (normal_fill curr_point tm_sigma g_k)) curr_point
    = Err e ->
  random_walker prob_density alpha N_steps dim init_point tm_sigma g
  = (Err e, snd (normal_fill curr_point tm_sigma g_k)).
Proof.
  intros Hk Hs Hupto Hrate.
  apply (random_walker_raises_at _ _ _ _ _ _ _ _ _ _ _ _ _ Hk Hupto).
  unfold walker_body.
  rewrite (bind_Ok _ _ _ _ _ (np_random_normal_Ok _ _ _ Hs)).
  apply bind_Err. unfold pure_step. by rewrite Hrate.
Qed.

End WalkerArguments.

Lemma random_walker_negative_shape_witness :
  random_walker flat_density [] (-1) 1 [0%Q] 1 demo_tape = (Err ValueError, demo_tape).
Proof.
  apply (random_walker_negative_shape flat_density [] (-1) 1 [0%Q] 1 demo_tape).
  left. lia.
Defined.

Lemma random_walker_init_point_mismatch_witness :
  random_walker flat_density [] 2 3 [0%Q; 0%Q] 1 demo_tape = (Err ValueError, demo_tape).
Proof.
  apply (random_walker_init_point_mismatch flat_density [] 2 3 [0%Q; 0%Q] 1 demo_tape).
  - lia.
  - lia.
  - simpl. lia.
  - simpl. lia.
Defined.

Lemma random_walker_negative_sigma_witness :
  random_walker flat_density [] 2 1 [0%Q] (-1) demo_tape = (Err ValueError, demo_tape).
Proof.
  apply (random_walker_negative_sigma flat_density [] 2 1 [0%Q] (-1) demo_tape).
  - lia.
  - lia.
  - reflexivity.
  - reflexivity.
Defined.

(** The density [lorentz] reads [alpha[0]]: with an empty [alpha] its
    [IndexError] at the first trial move is what the walker raises. *)
Lemma random_walker_rate_error_witness :
  random_walker (def_r_alpha_default lorentz [1%Q]) [] 2 1 [0%Q] 1 demo_tape
  = (Err IndexError, snd (normal_fill [0%Q] 1 demo_tape)).
Proof.
  apply (random_walker_rate_error (def_r_alpha_default lorentz [1%Q]) [] 2 1
           [0%Q] 1 demo_tape 0%nat {| ncols := 1; rows := [[0%Q]; [0%Q]] |} [0%Q]
           demo_tape IndexError).
  - simpl. lia.
  - reflexivity.
  - reflexivity.
  - reflexivity.
Defined.

Section WalkerRows.

Context {G : Type} `{RandomState G}.

Variable prob_density : callable.
Variable alpha : list Q.
Variable tm_sigma : Q.

(** What an iteration that completes has done, whatever the width of the
    current point: the row written is the chosen point after broadcasting,
    and the chosen point has as many coordinates as the point before. *)
Lemma walker_body_Ok_inv_broadcast i steps curr_point (g : G) steps' curr_point' g' :
  walker_body prob_density alpha tm_sigma i (steps, curr_point) g
    = (Ok (steps', curr_point'), g') ->
  (i < length (rows steps))%nat /\
  ncols steps' = ncols steps /\
  length curr_point' = length curr_point /\
  exists row, broadcast_to (ncols steps) curr_point' = Ok row /\
              rows steps' = <[i := row]> (rows steps).
Proof.
  intros Hbody.
  assert (Hpre : Qle_bool 0 tm_sigma = true /\
                 exists rate, acceptance_rate prob_density alpha
                   (fst (normal_fill curr_point tm_sigma g)) curr_point = Ok rate).
  { unfold walker_body in Hbody.
    apply bind_Ok_inv in Hbody as (next & g1 & Hnext & Hbody).
    apply np_random_normal_Ok_inv in Hnext as (Hs & -> & ->).
    apply bind_Ok_inv in Hbody as (rate & g2 & Hrate & _).
    apply pure_step_Ok_inv in Hrate as [Hrate _]. eauto. }
  destruct Hpre as (Hs & rate & Hrate).
  rewrite (walker_body_eq _ _ _ _ _ _ _ _ Hs Hrate) in Hbody. cbv zeta in Hbody.
  match type of Hbody with
  | context [setitem steps i ?v] =>
      assert (Hw : length v = length curr_point)
        by (match goal with |- context [xleb ?a ?b] => destruct (xleb a b) end;
            [apply normal_fill_length | done]);
      destruct (setitem steps i v) as [a | e] eqn:Hset
  end; [| discriminate].
  inversion Hbody; subst a curr_point' g'; clear Hbody.
  apply setitem_Ok_inv in Hset as (Hi & row & Hrow & ->). simpl.
  split; [done |]. split; [done |]. split; [done |]. by exists row.
Qed.

Lemma walker_loop_shape_broadcast range steps curr_point (g : G) steps' curr_point' g' :
  walker_loop prob_density alpha tm_sigma range (steps, curr_point) g
    = (Ok (steps', curr_point'), g') ->
  Forall (fun row => length row = ncols steps) (rows steps) ->
  ncols steps' = ncols steps /\
  length (rows steps') = length (rows steps) /\
  Forall (fun row => length row = ncols steps) (rows steps').
Proof.
  revert steps curr_point g.
  induction range as [| i range IH]; intros steps curr_point g Hloop Hall;
    simpl in Hloop.
  - unfold ret in Hloop. by inversion Hloop; subst.
  - apply bind_Ok_inv in Hloop as ([steps1 curr1] & g1 & Hbody & Hloop).
    apply walker_body_Ok_inv_broadcast in Hbody
      as (Hi & Hcols & _ & row & Hrow & Hrows).
    apply broadcast_to_length in Hrow.
    apply IH in Hloop as (Hc & Hl & Ha).
    + rewrite Hc, Hl, Hcols, Hrows, length_insert. rewrite Hcols in Ha. done.
    + rewrite Hcols, Hrows. by apply Forall_insert.
Qed.

(** X5.  A trajectory that [random_walker] returns has the shape
    [(N_steps, dim)] with [N_steps >= 1]: [N_steps] rows of [dim]
    coordinates each, also when [init_point] was broadcast. *)
Theorem random_walker_trajectory_shape N_steps dim init_point (g : G) steps g' :
  random_walker prob_density alpha N_steps dim init_point tm_sigma g = (Ok steps, g') ->
  1 <= N_steps /\ 0 <= dim /\
  ncols steps = Z.to_nat dim /\
  length (rows steps) = Z.to_nat N_steps /\
  Forall (fun row => length row = Z.to_nat dim) (rows steps).
Proof.
  intros Hrun. unfold random_walker in Hrun.
  apply bind_Ok_inv in Hrun as (zeros & g1 & Hz & Hrun).
  apply pure_step_Ok_inv in Hz as [Hz ->].
  apply np_zeros2_Ok_inv in Hz as (HN & Hdim & Hcols & Hrows & Hall).
  apply bind_Ok_inv in Hrun as (steps0 & g1 & Hset & Hrun).
  apply pure_step_Ok_inv in Hset as [Hset ->].
  apply setitem_Ok_inv in Hset as (H0 & row & Hrow & ->).
  apply broadcast_to_length in Hrow.
  apply bind_Ok_inv in Hrun as ([steps1 curr1] & g1 & Hloop & Hret).
  unfold ret in Hret. inversion Hret; subst. simpl.
  apply walker_loop_shape_broadcast in Hloop as (Hc & Hl & Ha); simpl in *.
  - rewrite length_insert in Hl. rewrite Hcols in Ha.
    split; [lia |]. split; [done |]. split; [congruence |].
    split; [congruence | done].
  - rewrite Hcols. apply Forall_insert; [done | congruence].
Qed.

(** The current point keeps the width of the array through the loop, and
    the row of the last iteration is the current point. *)
Lemma walker_loop_last_row n k steps curr_point (g : G) steps' curr_point' g' :
  walker_loop prob_density alpha tm_sigma (seq k (S n)) (steps, curr_point) g
    = (Ok (steps', curr_point'), g') ->
  length curr_point = ncols steps ->
  length curr_point' = ncols steps' /\
  rows steps' !! (k + n)%nat = Some curr_point'.
Proof.
  revert k steps curr_point g.
  induction n as [| n IH]; intros k steps curr_point g Hloop Hlen;
    cbn [seq walker_loop] in Hloop;
    apply bind_Ok_inv in Hloop as ([steps1 curr1] & g1 & Hbody & Hloop);
    apply walker_body_Ok_inv in Hbody as (Hk & Hcols & Hrows & Hlen1 & _);
    try done.
  - unfold ret in Hloop. inversion Hloop; subst.
    split; [congruence |]. rewrite Hrows, Nat.add_0_r.
    by apply list_lookup_insert_eq.
  - replace (k + S n)%nat with (S k + n)%nat by lia.
    apply (IH (S k) steps1 curr1 g1 Hloop). congruence.
Qed.

(** X6.  Row [k] of a returned trajectory is the walker's current point at
    the end of iteration [k]: later iterations do not touch it. *)
Theorem random_walker_row_is_current_point N_steps dim init_point (g : G)
    k steps_k curr_point g_k steps g' :
  length init_point = Z.to_nat dim ->
  (k < Z.to_nat N_steps)%nat ->
  random_walker_upto prob_density alpha N_steps dim init_point tm_sigma (S k) g
    = (Ok (steps_k, curr_point), g_k) ->
  random_walker prob_density alpha N_steps dim init_point tm_sigma g = (Ok steps, g') ->
  rows steps !! k = Some curr_point.
Proof.
  intros Hlen Hk Hupto Hrun.
  unfold random_walker_upto in Hupto. unfold random_walker in Hrun.
  apply bind_Ok_inv in Hupto as (zeros & g1 & Hz & Hupto).
  rewrite (bind_Ok _ _ _ _ _ Hz) in Hrun.
  apply pure_step_Ok_inv in Hz as [Hz ->].
  apply np_zeros2_Ok_inv in Hz as (_ & _ & Hcols & _ & _).
  apply bind_Ok_inv in Hupto as (steps0 & g1 & Hset & Hupto).
  rewrite (bind_Ok _ _ _ _ _ Hset) in Hrun.
  apply pure_step_Ok_inv in Hset as [Hset ->].
  apply setitem_Ok_inv in Hset as (_ & row & _ & ->).
  apply bind_Ok_inv in Hrun as ([steps1 curr1] & g1 & Hloop & Hret).
  unfold ret in Hret. inversion Hret; subst steps1 g1; clear Hret. simpl.
  replace (Z.to_nat N_steps) with (S k + (Z.to_nat N_steps - S k))%nat in Hloop by lia.
  rewrite seq_app, walker_loop_app, (bind_Ok _ _ _ _ _ Hupto) in Hloop.
  apply (walker_loop_last_row k 0) in Hupto as [Hw Hrow]; [| simpl; congruence].
  rewrite (walker_loop_earlier_rows _ _ _ _ _ _ _ _ _ _ _ Hloop) by (done || lia).
  done.
Qed.

(** X9.  An [init_point] of one coordinate is accepted for any [dim]: the
    walk is then one-dimensional, and every row of the returned trajectory
    repeats one number [dim] times. *)
Theorem random_walker_broadcast_rows N_steps dim x (g : G) steps g' :
  random_walker prob_density alpha N_steps dim [x] tm_sigma g = (Ok steps, g') ->
  Forall (fun row => exists y, row = replicate (Z.to_nat dim) y) (rows steps).
Proof.
  assert (Hone : forall n v row, length v = 1%nat -> broadcast_to n v = Ok row ->
                                 exists y, row = replicate n y).
  { intros n [| y [| z v]] row Hv Hrow; try discriminate. exists y.
    unfold broadcast_to in Hrow.
    destruct n as [| [| n]]; simpl in Hrow; by inversion Hrow. }
  assert (Hloop : forall range steps0 curr (g0 : G) steps1 curr1 g1,
             walker_loop prob_density alpha tm_sigma range (steps0, curr) g0
               = (Ok (steps1, curr1), g1) ->
             length curr = 1%nat ->
             Forall (fun row => exists y, row = replicate (ncols steps0) y) (rows steps0) ->
             ncols steps1 = ncols steps0 /\
             Forall (fun row => exists y, row = replicate (ncols steps0) y) (rows steps1)).
  { induction range as [| i range IH]; intros steps0 curr g0 steps1 curr1 g1 Hl Hc Hall;
      simpl in Hl.
    - unfold ret in Hl. by inversion Hl; subst.
    - apply bind_Ok_inv in Hl as ([steps2 curr2] & g2 & Hbody & Hl).
      apply walker_body_Ok_inv_broadcast in Hbody
        as (Hi & Hcols & Hlen & row & Hrow & Hrows).
      apply Hone in Hrow; [| congruence].
      apply IH in Hl as [Hc1 Ha1].
      + rewrite Hcols in Hc1, Ha1. done.
      + congruence.
      + rewrite Hcols, Hrows. by apply Forall_insert. }
  intros Hrun. unfold random_walker in Hrun.
  apply bind_Ok_inv in Hrun as (zeros & g1 & Hz & Hrun).
  apply pure_step_Ok_inv in Hz as [Hz ->].
  pose proof Hz as Hzeros. unfold np_zeros2 in Hzeros.
  destruct ((N_steps <? 0) || (dim <? 0)); [discriminate |].
  inversion Hzeros; subst zeros; clear Hzeros Hz.
  apply bind_Ok_inv in Hrun as (steps0 & g1 & Hset & Hrun).
  apply pure_step_Ok_inv in Hset as [Hset ->].
  apply setitem_Ok_inv in Hset as (_ & row & Hrow & ->). simpl in *.
  apply Hone in Hrow; [| done].
  apply bind_Ok_inv in Hrun as ([steps1 curr1] & g1 & Hl & Hret).
  unfold ret in Hret. inversion Hret; subst. simpl.
  apply Hloop in Hl as [_ Hall]; simpl in *; [done | done |].
  apply Forall_insert; [| done].
  apply Forall_replicate. by exists 0%Q.
Qed.

End WalkerRows.

Section WalkerZeroDivisor.

Context {G : Type} `{RandomState G}.

Lemma walker_loop_point_width prob_density alpha tm_sigma range steps curr_point
    (g : G) steps' curr_point' g' :
  walker_loop prob_density alpha tm_sigma range (steps, curr_point) g
    = (Ok (steps', curr_point'), g') ->
  length curr_point = ncols steps ->
  length curr_point' = ncols steps' /\ length (rows steps') = length (rows steps).
Proof.
  revert steps curr_point g.
  induction range as [| i range IH]; intros steps curr_point g Hloop Hlen;
    simpl in Hloop.
  - unfold ret in Hloop. by inversion Hloop; subst.
  - apply bind_Ok_inv in Hloop as ([steps1 curr1] & g1 & Hbody & Hloop).
    apply walker_body_Ok_inv in Hbody as (Hi & Hcols & Hrows & Hlen1 & _);
      [| done].
    apply IH in Hloop as [Hw Hl]; [| congruence].
    split; [done |]. by rewrite Hl, Hrows, length_insert.
Qed.

(** At the head of iteration [k] the array has its [N_steps] rows and the
    current point the width of the array. *)
Lemma random_walker_upto_shape prob_density alpha N_steps dim init_point tm_sigma
    (g : G) k steps curr_point g_k :
  length init_point = Z.to_nat dim ->
  random_walker_upto prob_density alpha N_steps dim init_point tm_sigma k g
    = (Ok (steps, curr_point), g_k) ->
  length (rows steps) = Z.to_nat N_steps /\ length curr_point = ncols steps.
Proof.
  intros Hlen Hupto. unfold random_walker_upto in Hupto.
  apply bind_Ok_inv in Hupto as (zeros & g1 & Hz & Hupto).
  apply pure_step_Ok_inv in Hz as [Hz ->].
  apply np_zeros2_Ok_inv in Hz as (_ & _ & Hcols & Hrows & _).
  apply bind_Ok_inv in Hupto as (steps0 & g1 & Hset & Hupto).
  apply pure_step_Ok_inv in Hset as [Hset ->].
  apply setitem_Ok_inv in Hset as (_ & row & _ & ->).
  apply walker_loop_point_width in Hupto as [Hw Hl]; simpl in *.
  - rewrite length_insert in Hl. split; [congruence | done].
  - congruence.
Qed.

(** C7, as the code has it.  Take the head of an iteration where the
    density of the current point is zero, for a density that gives the same
    value called on the point alone as called with [alpha], and where the
    density of the trial move evaluates.  If both densities are Python
    numbers, the division raises [ZeroDivisionError] and that is the
    outcome of [random_walker].  If one of them is a numpy [float64],
    nothing is raised: the rate is an infinity or not-a-number, the
    iteration completes, and the trial move is taken exactly when the rate
    is the positive infinity. *)
Theorem random_walker_zero_divisor prob_density alpha N_steps dim init_point tm_sigma
    (g : G) k steps curr_point g_k num den :
  length init_point = Z.to_nat dim ->
  (k < Z.to_nat N_steps)%nat ->
  Qle_bool 0 tm_sigma = true ->
  random_walker_upto prob_density alpha N_steps dim init_point tm_sigma k g
    = (Ok (steps, curr_point), g_k) ->
  call2 prob_density (fst (normal_fill curr_point tm_sigma g_k)) alpha = Ok num ->
  call2 prob_density curr_point alpha = Ok den ->
  call1 prob_density curr_point = Ok den ->
  xis_zero (val den) = true ->
  let next_point := fst (normal_fill curr_point tm_sigma g_k) in
  let g1 := snd (normal_fill curr_point tm_sigma g_k) in
  (kind num = Python /\ kind den = Python ->
   random_walker prob_density alpha N_steps dim init_point tm_sigma g
   = (Err ZeroDivisionError, g1)) /\
  (kind num = Numpy \/ kind den = Numpy ->
   let rate := xdiv (val num) (val den) in
   let chosen := match rate with PInf => next_point | _ => curr_point end in
   (rate = PInf \/ rate = NInf \/ rate = NaN) /\
   walker_body prob_density alpha tm_sigma k (steps, curr_point) g_k
   = (Ok ({| ncols := ncols steps; rows := <[k := chosen]> (rows steps) |}, chosen),
      snd (random_sample g1))).
Proof.
  intros Hlen Hk Hs Hupto Hnum Hden2 Hden Hzero next_point g1. split.
  - intros [Hkn Hkd].
    apply (random_walker_raises_at _ _ _ _ _ _ _ _ _ _ _ _ _ Hk Hupto).
    by apply walker_body_zero_density with (num := num) (den := den).
  - intros Hkind rate chosen.
    pose proof (xdiv_zero_divisor (val num) _ Hzero) as Hrate. fold rate in Hrate.
    split; [exact Hrate |].
    destruct (random_walker_upto_shape _ _ _ _ _ _ _ _ _ _ _ Hlen Hupto) as [Hrows Hw].
    assert (Hacc : acceptance_rate prob_density alpha next_point curr_point
                   = Ok {| kind := Numpy; val := rate |}).
    { unfold acceptance_rate, next_point. rewrite Hnum, Hden. simpl. unfold truediv.
      destruct (kind num), (kind den); try done. by destruct Hkind. }
    destruct (walker_body_chosen _ _ _ k steps curr_point g_k _ Hs
                ltac:(lia) Hw Hacc) as [_ Hbody].
    cbv zeta in Hbody. rewrite Hbody. fold next_point g1. simpl val.
    destruct Hrate as [-> | [-> | ->]]; reflexivity.
Qed.

End WalkerZeroDivisor.

(** From [[2]], where the density [tent] is the [float64] zero, the trial
    move is the origin: the rate is infinite and the move is taken. *)
Lemma random_walker_zero_divisor_witness :
  (kind (np_float64 1) = Python /\ kind (np_float64 0) = Python ->
   random_walker tent_density [] 1 1 [2%Q] 1 escape_tape
   = (Err ZeroDivisionError, snd (normal_fill [2%Q] 1 escape_tape))) /\
  (kind (np_float64 1) = Numpy \/ kind (np_float64 0) = Numpy ->
   let rate := xdiv (val (np_float64 1)) (val (np_float64 0)) in
   let chosen :=
     match rate with
     | PInf => fst (normal_fill [2%Q] 1 escape_tape)
     | _ => [2%Q]
     end in
   (rate = PInf \/ rate = NInf \/ rate = NaN) /\
   walker_body tent_density [] 1 0 ({| ncols := 1; rows := [[2%Q]] |}, [2%Q]) escape_tape
   = (Ok ({| ncols := ncols {| ncols := 1; rows := [[2%Q]] |};
             rows := <[0%nat := chosen]> (rows {| ncols := 1; rows := [[2%Q]] |}) |},
          chosen),
      snd (random_sample (snd (normal_fill [2%Q] 1 escape_tape))))).
Proof.
  apply (random_walker_zero_divisor tent_density [] 1 1 [2%Q] 1 escape_tape 0%nat
           {| ncols := 1; rows := [[2%Q]] |} [2%Q] escape_tape
           (np_float64 1) (np_float64 0)).
  - reflexivity.
  - simpl. lia.
  - reflexivity.
  - reflexivity.
  - reflexivity.
  - reflexivity.
  - reflexivity.
  - reflexivity.
Defined.

(** C7 fails on the code: the density [tent] is zero at the walker's
    current point [[2]], with [alpha] and without, and [random_walker]
    raises nothing; it takes the trial move and returns the trajectory. *)
Example random_walker_zero_density_no_error :
  call2 tent_density [2%Q] [] = Ok (np_float64 0) /\
  call1 tent_density [2%Q] = Ok (np_float64 0) /\
  random_walker tent_density [] 1 1 [2%Q] 1 escape_tape
  = (Ok {| ncols := 1; rows := [[0%Q]] |}, {| normals := []; uniforms := [] |}).
Proof. repeat split. Qed.

(** Between Python numbers the division raises: the density [box] returns
    the [int]s 0 and 1; the walker is taken from the origin to [[2]] by a
    uniform deviate that is zero, and divides by zero there. *)
Example random_walker_zero_density_python :
  random_walker box_density [] 3 1 [0%Q] 1 zero_tape
  = (Err ZeroDivisionError, {| normals := []; uniforms := [1 # 2] |}).
Proof. reflexivity. Qed.

Lemma random_walker_trajectory_shape_witness :
  1 <= 3 /\ 0 <= 1 /\
  ncols {| ncols := 1; rows := [[1%Q]; [3%Q]; [6%Q]] |} = Z.to_nat 1 /\
  length (rows {| ncols := 1; rows := [[1%Q]; [3%Q]; [6%Q]] |}) = Z.to_nat 3 /\
  Forall (fun row => length row = Z.to_nat 1)
    (rows {| ncols := 1; rows := [[1%Q]; [3%Q]; [6%Q]] |}).
Proof.
  apply (random_walker_trajectory_shape flat_density [] 1 3 1 [0%Q] demo_tape
           {| ncols := 1; rows := [[1%Q]; [3%Q]; [6%Q]] |}
           {| normals := []; uniforms := [] |}).
  reflexivity.
Defined.

Lemma random_walker_row_is_current_point_witness :
  rows {| ncols := 1; rows := [[1%Q]; [0%Q]; [0%Q]] |} !! 1%nat = Some [0%Q].
Proof.
  apply (random_walker_row_is_current_point box_density [] 1 3 1 [0%Q] walk_tape 1%nat
           {| ncols := 1; rows := [[1%Q]; [0%Q]; [0%Q]] |} [0%Q]
           {| normals := [3%Q]; uniforms := [3 # 4] |}
           {| ncols := 1; rows := [[1%Q]; [0%Q]; [0%Q]] |}
           {| normals := []; uniforms := [] |}).
  - reflexivity.
  - simpl. lia.
  - reflexivity.
  - reflexivity.
Defined.

Lemma random_walker_broadcast_rows_witness :
  Forall (fun row => exists y, row = replicate (Z.to_nat 3) y)
    (rows {| ncols := 3; rows := [[1%Q; 1%Q; 1%Q]; [3%Q; 3%Q; 3%Q]] |}).
Proof.
  apply (random_walker_broadcast_rows flat_density [] 1 2 3 0%Q demo_tape
           {| ncols := 3; rows := [[1%Q; 1%Q; 1%Q]; [3%Q; 3%Q; 3%Q]] |}
           {| normals := [3%Q]; uniforms := [3 # 4] |}).
  reflexivity.
Defined.

Section SampleAndWalk.

Context {G : Type} `{RandomState G}.

Variable prob_density : callable.
Variable alpha : list Q.
Variable tm_sigma : Q.

(** X8.  A point drawn by [rand_init_point(system_size, dim)] is a valid
    start for [random_walker] with the same [dim]: with a non-negative
    [system_size] and [tm_sigma] and a density that evaluates everywhere
    and is nowhere zero, the walker started there returns [N_steps] rows
    of [dim] coordinates. *)
Theorem rand_init_point_then_random_walker system_size N_steps dim (g : G) :
  Qle_bool 0 tm_sigma = true ->
  (forall r, exists v, call2 prob_density r alpha = Ok v) ->
  (forall r, exists d, call1 prob_density r = Ok d /\ xis_zero (val d) = false) ->
  1 <= N_steps ->
  0 <= dim ->
  (0 <= system_size)%Q ->
  exists init_point g1 steps g2,
    rand_init_point system_size dim g = (Ok init_point, g1) /\
    random_walker prob_density alpha N_steps dim init_point tm_sigma g1 = (Ok steps, g2) /\
    length (rows steps) = Z.to_nat N_steps /\
    Forall (fun row => length row = Z.to_nat dim) (rows steps).
Proof.
  intros Hs Hnum Hden HN Hdim Hsize.
  apply Qle_bool_iff in Hsize.
  destruct (normal_fill_replicate (Z.to_nat dim) 0 system_size g) as (Hlen & _ & _).
  set (init_point := fst (normal_fill (replicate (Z.to_nat dim) 0%Q) system_size g)) in *.
  destruct (random_walker_returns prob_density alpha tm_sigma Hs Hnum Hden
              N_steps dim init_point
              (snd (normal_fill (replicate (Z.to_nat dim) 0%Q) system_size g))
              HN Hdim Hlen) as (steps & g2 & Hrun).
  exists init_point, (snd (normal_fill (replicate (Z.to_nat dim) 0%Q) system_size g)),
    steps, g2.
  split.
  - unfold rand_init_point, np_random_normal_size.
    destruct (Z.ltb_spec dim 0); [lia |]. by rewrite np_random_normal_Ok.
  - split; [done |]. by apply (random_walker_shape _ _ _ _ _ _ _ _ _ Hlen Hrun).
Qed.

End SampleAndWalk.

Lemma rand_init_point_then_random_walker_witness :
  exists init_point g1 steps g2,
    rand_init_point (2 # 1) 1 demo_tape = (Ok init_point, g1) /\
    random_walker flat_density [] 2 1 init_point 1 g1 = (Ok steps, g2) /\
    length (rows steps) = Z.to_nat 2 /\
    Forall (fun row => length row = Z.to_nat 1) (rows steps).
Proof.
  apply (rand_init_point_then_random_walker flat_density [] 1 (2 # 1) 2 1 demo_tape).
  - reflexivity.
  - intros r. exists (py_number 1). reflexivity.
  - intros r. exists (py_number 1). split; reflexivity.
  - lia.
  - lia.
  - discriminate.
Defined.

Section ExampleDensity.

Context {G : Type} `{RandomState G}.

(** X7.  The module's own [prob_density], which is zero everywhere, does
    not take the walker to a division by zero: with valid arguments the
    first iteration raises [TypeError], the call with the point alone being
    one argument short. *)
Theorem random_walker_example_prob_density alpha N_steps dim init_point tm_sigma (g : G) :
  1 <= N_steps ->
  0 <= dim ->
  length init_point = Z.to_nat dim ->
  Qle_bool 0 tm_sigma = true ->
  random_walker Examples.prob_density alpha N_steps dim init_point tm_sigma g
  = (Err TypeError, snd (normal_fill init_point tm_sigma g)).
Proof.
  intros HN Hdim Hlen Hs.
  apply (random_walker_raises_at _ _ _ _ _ _ _ 0%nat
           {| ncols := Z.to_nat dim;
              rows := <[0%nat := init_point]>
                        (replicate (Z.to_nat N_steps) (replicate (Z.to_nat dim) 0%Q)) |}
           init_point g); [lia | |].
  - by rewrite random_walker_upto_zero, random_walker_start.
  - by apply walker_body_missing_alpha with (v := py_number 0).
Qed.

End ExampleDensity.

Lemma random_walker_example_prob_density_witness :
  random_walker Examples.prob_density [1 # 2] 5 1 [0%Q] 1 demo_tape
  = (Err TypeError, snd (normal_fill [0%Q] 1 demo_tape)).
Proof.
  apply (random_walker_example_prob_density [1 # 2] 5 1 [0%Q] 1 demo_tape).
  - lia.
  - lia.
  - reflexivity.
  - reflexivity.
Defined.

(** * Further properties of the initial point *)

Section InitPointArguments.

Context {G : Type} `{RandomState G}.

(** X10.  A negative [dim] or a negative [system_size] makes
    [rand_init_point] raise [ValueError]; nothing is drawn. *)
Theorem rand_init_point_invalid (system_size : Q) (dim : Z) (g : G) :
  dim < 0 \/ (system_size < 0)%Q ->
  rand_init_point system_size dim g = (Err ValueError, g).
Proof.
  intros Hbad. unfold rand_init_point, np_random_normal_size.
  destruct (Z.ltb_spec dim 0) as [Hdim | Hdim]; [done |].
  destruct Hbad as [Hd | Hs]; [lia |].
  unfold np_random_normal. destruct (Qle_bool 0 system_size) eqn:Hle; [| done].
  apply Qle_bool_iff in Hle. exfalso. by apply (Qlt_not_le _ _ Hs).
Qed.

(** X11.  [system_size] is a pure scale: from the same generator, the point
    for [system_size] is, coordinate by coordinate, [system_size] times the
    point for [system_size = 1], and both leave the generator in the same
    state. *)
Theorem rand_init_point_scale (system_size : Q) (dim : Z) (g : G) :
  0 <= dim ->
  (0 <= system_size)%Q ->
  exists point unit_point g',
    rand_init_point system_size dim g = (Ok point, g') /\
    rand_init_point 1 dim g = (Ok unit_point, g') /\
    Forall2 (fun x y => (x == system_size * y)%Q) point unit_point.
Proof.
  intros Hdim Hs. apply Qle_bool_iff in Hs.
  unfold rand_init_point, np_random_normal_size.
  destruct (Z.ltb_spec dim 0); [lia |].
  rewrite (np_random_normal_Ok _ _ _ Hs).
  rewrite (np_random_normal_Ok _ 1 g) by reflexivity.
  destruct (normal_fill_replicate (Z.to_nat dim) 0 system_size g) as (Hlen & Hg & Hnth).
  destruct (normal_fill_replicate (Z.to_nat dim) 0 1 g) as (Hlen1 & Hg1 & Hnth1).
  eexists _, _, _. split; [reflexivity |]. split; [by rewrite Hg, Hg1 |].
  apply Forall2_same_length_lookup. split; [congruence |].
  intros i x y Hx Hy.
  assert (Hi : (i < Z.to_nat dim)%nat) by (apply lookup_lt_Some in Hx; lia).
  rewrite (Hnth i Hi) in Hx. rewrite (Hnth1 i Hi) in Hy.
  inversion Hx; inversion Hy; subst. ring.
Qed.

End InitPointArguments.

Lemma rand_init_point_invalid_witness :
  rand_init_point 1 (-2) demo_tape = (Err ValueError, demo_tape).
Proof. apply (rand_init_point_invalid 1 (-2) demo_tape). left. lia. Defined.

Lemma rand_init_point_scale_witness :
  exists point unit_point g',
    rand_init_point (5 # 2) 2 demo_tape = (Ok point, g') /\
    rand_init_point 1 2 demo_tape = (Ok unit_point, g') /\
    Forall2 (fun x y => (x == (5 # 2) * y)%Q) point unit_point.
Proof.
  apply (rand_init_point_scale (5 # 2) 2 demo_tape).
  - lia.
  - discriminate.
Defined.

(** * Further properties of the step-size tuner *)

Section TunerArguments.

Context {G : Type} `{RandomState G}.

Lemma tuner_batch_S prob_density alpha sigma n st (g : G) :
  tuner_batch prob_density alpha sigma (S n) st g
  = bind (tuner_trial prob_density alpha sigma st)
         (tuner_batch prob_density alpha sigma n) g.
Proof. reflexivity. Qed.

(** The call up to the first trial move of the first batch. *)
Lemma find_optimal_tm_sigma_first_trial prob_density alpha dim tm_sigma_init Niter tol
    (g : G) e g1 :
  1 <= Niter ->
  0 <= dim ->
  tuner_trial prob_density alpha tm_sigma_init (replicate (Z.to_nat dim) 0%Q, py_number 0) g
    = (Err e, g1) ->
  find_optimal_tm_sigma prob_density alpha dim tm_sigma_init Niter tol g = (Err e, g1).
Proof.
  intros HN Hdim Htrial. unfold find_optimal_tm_sigma, np_zeros1.
  destruct (Z.ltb_spec dim 0); [lia |].
  unfold bind at 1. unfold pure_step at 1.
  destruct (Z.to_nat (Niter + 1 - 1)) as [| fuel] eqn:Hfuel; [lia |].
  simpl tuner_while. destruct (Z.leb_spec 1 Niter); [| lia].
  apply bind_Err. unfold tuner_pass. apply bind_Err. simpl curr_tm_sigma.
  simpl curr_point. simpl total_rate.
  rewrite tuner_batch_S. by apply bind_Err.
Qed.

(** X13.  A negative [dim] makes [np.zeros] raise [ValueError], whatever
    the budget; nothing is drawn. *)
Theorem find_optimal_tm_sigma_negative_dim prob_density alpha dim tm_sigma_init Niter tol
    (g : G) :
  dim < 0 ->
  find_optimal_tm_sigma prob_density alpha dim tm_sigma_init Niter tol g
  = (Err ValueError, g).
Proof.
  intros Hdim. unfold find_optimal_tm_sigma. apply bind_Err.
  unfold pure_step, np_zeros1. by destruct (Z.ltb_spec dim 0); [| lia].
Qed.

(** X15.  With a budget, whatever the rate of the first trial move raises
    (an exception of the density, a missing argument, a division by zero
    between Python numbers) is the outcome of [find_optimal_tm_sigma]. *)
Theorem find_optimal_tm_sigma_rate_error prob_density alpha dim tm_sigma_init Niter tol
    (g : G) e :
  1 <= Niter ->
  0 <= dim ->
  Qle_bool 0 tm_sigma_init = true ->
  acceptance_rate prob_density alpha
    (fst (normal_fill (replicate (Z.to_nat dim) 0%Q) tm_sigma_init g))
    (replicate (Z.to_nat dim) 0%Q) = Err e ->
  find_optimal_tm_sigma prob_density alpha dim tm_sigma_init Niter tol g
  = (Err e, snd (normal_fill (replicate (Z.to_nat dim) 0%Q) tm_sigma_init g)).
Proof.
  intros HN Hdim Hs Hrate.
  apply find_optimal_tm_sigma_first_trial; [done | done |].
  unfold tuner_trial.
  rewrite (bind_Ok _ _ _ _ _ (np_random_normal_Ok _ _ _ Hs)).
  apply bind_Err. unfold pure_step. by rewrite Hrate.
Qed.

(** X16.  With a budget, a negative [tm_sigma_init] is refused by
    [np.random.normal] in the first trial move: [ValueError], nothing
    drawn. *)
Theorem find_optimal_tm_sigma_negative_sigma prob_density alpha dim tm_sigma_init Niter
    tol (g : G) :
  1 <= Niter ->
  0 <= dim ->
  (tm_sigma_init < 0)%Q ->
  find_optimal_tm_sigma prob_density alpha dim tm_sigma_init Niter tol g
  = (Err ValueError, g).
Proof.
  intros HN Hdim Hs.
  apply find_optimal_tm_sigma_first_trial; [done | done |].
  unfold tuner_trial. apply bind_Err. unfold np_random_normal.
  destruct (Qle_bool 0 tm_sigma_init) eqn:Hle; [| done].
  apply Qle_bool_iff in Hle. exfalso. by apply (Qlt_not_le _ _ Hs).
Qed.

(** X12.  [find_optimal_tm_sigma] returns normally exactly when there is no
    budget ([Niter <= 0]) and [dim] is not negative; what it returns then is
    [tm_sigma_init] itself, and nothing has been drawn.  It never returns a
    sigma other than the one it was given. *)
Theorem find_optimal_tm_sigma_returns_iff prob_density alpha dim tm_sigma_init Niter tol
    (g : G) sigma g' :
  find_optimal_tm_sigma prob_density alpha dim tm_sigma_init Niter tol g = (Ok sigma, g')
  <-> Niter <= 0 /\ 0 <= dim /\ sigma = tm_sigma_init /\ g' = g.
Proof.
  split.
  - intros Hrun.
    destruct (Z.lt_ge_cases dim 0) as [Hdim | Hdim].
    { unfold find_optimal_tm_sigma, bind, pure_step, np_zeros1 in Hrun.
      destruct (Z.ltb_spec dim 0); [discriminate | lia]. }
    destruct (Z.le_gt_cases Niter 0) as [HN | HN].
    + rewrite find_optimal_tm_sigma_no_budget in Hrun by done.
      by inversion Hrun.
    + exfalso. unfold find_optimal_tm_sigma, np_zeros1 in Hrun.
      destruct (Z.ltb_spec dim 0); [lia |].
      unfold bind at 1 in Hrun. unfold pure_step at 1 in Hrun.
      destruct (Z.to_nat (Niter + 1 - 1)) as [| fuel] eqn:Hfuel; [lia |].
      simpl tuner_while in Hrun. destruct (Z.leb_spec 1 Niter); [| lia].
      apply bind_Ok_inv in Hrun as (st' & g1 & Hpass & _).
      match type of Hpass with
      | tuner_pass ?pd ?a ?t ?st ?g0 = _ =>
          pose proof (tuner_pass_not_ok pd a t st g0) as Hnot
      end.
      rewrite Hpass in Hnot. discriminate.
  - intros (HN & Hdim & -> & ->). by apply find_optimal_tm_sigma_no_budget.
Qed.

End TunerArguments.

Lemma find_optimal_tm_sigma_negative_dim_witness :
  find_optimal_tm_sigma flat_density [] (-1) 1 500 (1 # 20) demo_tape
  = (Err ValueError, demo_tape).
Proof.
  apply (find_optimal_tm_sigma_negative_dim flat_density [] (-1) 1 500 (1 # 20) demo_tape).
  lia.
Defined.

(** The density [box] at the origin, called without its default: the
    documented signature is one argument short in the first trial move. *)
Lemma find_optimal_tm_sigma_rate_error_witness :
  find_optimal_tm_sigma (def_r_alpha box) [] 1 1 500 (1 # 20) demo_tape
  = (Err TypeError, snd (normal_fill (replicate (Z.to_nat 1) 0%Q) 1 demo_tape)).
Proof.
  apply (find_optimal_tm_sigma_rate_error (def_r_alpha box) [] 1 1 500 (1 # 20)
           demo_tape TypeError).
  - lia.
  - lia.
  - reflexivity.
  - reflexivity.
Defined.

Lemma find_optimal_tm_sigma_negative_sigma_witness :
  find_optimal_tm_sigma flat_density [] 1 (-1) 500 (1 # 20) demo_tape
  = (Err ValueError, demo_tape).
Proof.
  apply (find_optimal_tm_sigma_negative_sigma flat_density [] 1 (-1) 500 (1 # 20)
           demo_tape).
  - lia.
  - lia.
  - reflexivity.
Defined.

Section TunerBatch.

Context {G : Type} `{RandomState G}.

Variable prob_density : callable.
Variable alpha : list Q.
Variable sigma : Q.

Hypothesis sigma_nonneg : Qle_bool 0 sigma = true.
Hypothesis density_alpha : forall r, exists v, call2 prob_density r alpha = Ok v.
Hypothesis density_alone :
  forall r, exists d, call1 prob_density r = Ok d /\ xis_zero (val d) = false.

Lemma tuner_trial_returns (st : list Q * number) (g : G) :
  exists st' g', tuner_trial prob_density alpha sigma st g = (Ok st', g').
Proof.
  destruct st as [point total]. unfold tuner_trial.
  rewrite (bind_Ok _ _ _ _ _ (np_random_normal_Ok _ _ _ sigma_nonneg)).
  destruct (acceptance_rate_defined prob_density alpha density_alpha density_alone
              (fst (normal_fill point sigma g)) point) as [rate Hrate].
  unfold bind at 1. unfold pure_step at 1. rewrite Hrate.
  rewrite (bind_Ok _ _ _ _ _ (np_random_rand1_eq _)).
  match goal with |- context [xleb ?a ?b] => destruct (xleb a b) end;
    by eexists _, _.
Qed.

Lemma tuner_batch_returns n (st : list Q * number) (g : G) :
  exists st' g', tuner_batch prob_density alpha sigma n st g = (Ok st', g').
Proof.
  revert st g. induction n as [| n IH]; intros st g.
  - by eexists _, _.
  - destruct (tuner_trial_returns st g) as (st1 & g1 & Htrial).
    rewrite tuner_batch_S, (bind_Ok _ _ _ _ _ Htrial). apply IH.
Qed.

(** X14.  With a budget, a valid [dim], a non-negative [tm_sigma_init] and
    a density that evaluates everywhere and is nowhere zero, the first
    batch of a hundred trial moves completes and the test that follows it
    raises [TypeError]: no sigma is returned even for a well-behaved
    density. *)
Theorem find_optimal_tm_sigma_TypeError_after_batch dim Niter tol (g : G) :
  1 <= Niter ->
  0 <= dim ->
  exists st' g',
    tuner_batch prob_density alpha sigma 100
      (replicate (Z.to_nat dim) 0%Q, py_number 0) g = (Ok st', g') /\
    find_optimal_tm_sigma prob_density alpha dim sigma Niter tol g = (Err TypeError, g').
Proof.
  intros HN Hdim.
  destruct (tuner_batch_returns 100 (replicate (Z.to_nat dim) 0%Q, py_number 0) g)
    as (st' & g' & Hbatch).
  exists st', g'. split; [done |].
  unfold find_optimal_tm_sigma, np_zeros1.
  destruct (Z.ltb_spec dim 0); [lia |].
  unfold bind at 1. unfold pure_step at 1.
  destruct (Z.to_nat (Niter + 1 - 1)) as [| fuel] eqn:Hfuel; [lia |].
  simpl tuner_while. destruct (Z.leb_spec 1 Niter); [| lia].
  apply bind_Err.
  match goal with
  | |- tuner_pass ?pd ?a ?t ?st g = _ =>
      pose proof (tuner_pass_raises pd a t st g) as Hpass
  end.
  simpl curr_tm_sigma in Hpass. simpl curr_point in Hpass. simpl total_rate in Hpass.
  by rewrite Hbatch in Hpass.
Qed.

End TunerBatch.

Lemma find_optimal_tm_sigma_TypeError_after_batch_witness :
  exists st' g',
    tuner_batch flat_density [] 1 100
      (replicate (Z.to_nat 1) 0%Q, py_number 0) demo_tape = (Ok st', g') /\
    find_optimal_tm_sigma flat_density [] 1 1 500 (1 # 20) demo_tape
      = (Err TypeError, g').
Proof.
  apply (find_optimal_tm_sigma_TypeError_after_batch flat_density [] 1).
  - reflexivity.
  - intros r. exists (py_number 1). reflexivity.
  - intros r. exists (py_number 1). split; reflexivity.
  - lia.
  - lia.
Defined.

(** * Further properties of the optimizer *)

(** X17.  [Optimizer(opt_args)] is built exactly when [opt_args] has the
    keys ["method"] and ["init_alpha"]; the object then holds their values
    and is not converged.  Other keys are ignored. *)
Theorem Optimizer_init_Ok_iff (opt_args : gmap string pyvalue) (self : Optimizer) :
  Optimizer_init opt_args = Ok self
  <-> opt_args !! "method" = Some (method self) /\
      opt_args !! "init_alpha" = Some (alpha self) /\
      converged self = false.
Proof.
  unfold Optimizer_init, getitem. split.
  - destruct (opt_args !! "method") as [m |]; simpl; [| discriminate].
    destruct (opt_args !! "init_alpha") as [a |]; simpl; [| discriminate].
    intros Hok. by inversion Hok.
  - intros (-> & -> & Hc). simpl. destruct self as [m c a]. simpl in *. by subst c.
Qed.

(** X18.  A missing key makes the constructor raise [KeyError]. *)
Theorem Optimizer_init_missing_key (opt_args : gmap string pyvalue) :
  opt_args !! "method" = None \/ opt_args !! "init_alpha" = None ->
  Optimizer_init opt_args = Err KeyError.
Proof.
  unfold Optimizer_init, getitem.
  intros [Hm | Ha].
  - by rewrite Hm.
  - rewrite Ha. by destruct (opt_args !! "method").
Qed.

Lemma Optimizer_init_missing_key_witness :
  Optimizer_init {[ "method" := PyStr "scan" ]} = Err KeyError.
Proof.
  apply (Optimizer_init_missing_key {[ "method" := PyStr "scan" ]}).
  right. reflexivity.
Defined.

Lemma eq_str_true_iff (v : pyvalue) (s : string) :
  eq_str v s = Ok true <-> v = PyStr s.
Proof.
  destruct v as [| x | t | a | items]; simpl; try (split; [discriminate | discriminate]).
  - destruct (String.eqb_spec t s) as [-> | Hts]; split; try done.
    intros Heq. by inversion Heq.
  - destruct (length a =? 1)%nat; split; discriminate.
Qed.

(** X19.  [update_alpha] never changes [alpha] or [method], whatever the
    method and the arguments, and it never resets [converged]: the only
    field it can change is [converged], from [False] to [True]. *)
Theorem update_alpha_frame (self : Optimizer) (args : pyvalue) :
  alpha (snd (update_alpha self args)) = alpha self /\
  method (snd (update_alpha self args)) = method self /\
  (converged self = true -> converged (snd (update_alpha self args)) = true).
Proof.
  unfold update_alpha.
  destruct (eq_str (method self) "scan") as [[|] | e]; [done | | done].
  by destruct (eq_str (method self) "steepest_descent") as [[|] | e].
Qed.

(** X20.  [update_alpha] returns normally exactly when the method is neither
    ["scan"] nor ["steepest_descent"] nor an array of a size other than
    one.  The two methods that the class documents raise ([NameError] for
    the undefined [step], [AttributeError] for the missing [self.args]),
    and such an array raises [ValueError] at the first comparison, whose
    elementwise result has no truth value. *)
Theorem update_alpha_returns_iff (self : Optimizer) (args : pyvalue) :
  (fst (update_alpha self args) = Ok tt
   <-> method self <> PyStr "scan" /\ method self <> PyStr "steepest_descent" /\
       forall a, method self = PyArray a -> length a = 1%nat) /\
  (method self = PyStr "scan" -> fst (update_alpha self args) = Err NameError) /\
  (method self = PyStr "steepest_descent" ->
   fst (update_alpha self args) = Err AttributeError) /\
  (forall a, method self = PyArray a -> length a <> 1%nat ->
   fst (update_alpha self args) = Err ValueError).
Proof.
  split; [| split; [| split]].
  - split.
    + intros Hok. unfold update_alpha in Hok.
      destruct (eq_str (method self) "scan") as [[|] | e] eqn:Hscan;
        [discriminate | | discriminate].
      destruct (eq_str (method self) "steepest_descent") as [[|] | e] eqn:Hsd;
        [discriminate | | discriminate].
      split; [| split].
      * intros Hm. apply eq_str_true_iff in Hm. congruence.
      * intros Hm. apply eq_str_true_iff in Hm. congruence.
      * intros a Ha. rewrite Ha in Hscan. simpl in Hscan.
        destruct (Nat.eqb_spec (length a) 1); [done | discriminate].
    + intros (Hscan & Hsd & Harr). unfold update_alpha.
      by rewrite (eq_str_false _ _ Hscan Harr), (eq_str_false _ _ Hsd Harr).
  - intros Hm. unfold update_alpha. by rewrite Hm.
  - intros Hm. unfold update_alpha. by rewrite Hm.
  - intros a Hm Hlen. unfold update_alpha. rewrite Hm. simpl.
    by destruct (Nat.eqb_spec (length a) 1).
Qed.

(** X21.  An optimizer with one of the two documented methods is stuck:
    however often [update_alpha] is called, the object stays as it was, so
    one that is not converged never converges and its [alpha] never
    moves. *)
Theorem update_alpha_documented_method_stuck (self : Optimizer) (args : pyvalue) (n : nat) :
  method self = PyStr "scan" \/ method self = PyStr "steepest_descent" ->
  update_alpha_times n self args = self.
Proof.
  intros Hm. induction n as [| n IH]; simpl; [done |].
  assert (Hsame : snd (update_alpha self args) = self).
  { unfold update_alpha. destruct Hm as [Hm | Hm]; by rewrite Hm. }
  by rewrite Hsame.
Qed.

Lemma update_alpha_documented_method_stuck_witness :
  update_alpha_times 3
    {| method := PyStr "scan"; converged := false; alpha := PyArray [1 # 2] |} PyNone
  = {| method := PyStr "scan"; converged := false; alpha := PyArray [1 # 2] |}.
Proof.
  apply (update_alpha_documented_method_stuck
           {| method := PyStr "scan"; converged := false; alpha := PyArray [1 # 2] |}
           PyNone 3).
  left. reflexivity.
Defined.

(** X22.  A second call of [update_alpha] changes nothing that the first
    has not changed, whatever the arguments of the two calls. *)
Theorem update_alpha_idempotent (self : Optimizer) (args1 args2 : pyvalue) :
  snd (update_alpha (snd (update_alpha self args1)) args2)
  = snd (update_alpha self args1).
Proof.
  unfold update_alpha.
  destruct (eq_str (method self) "scan") as [[|] | e] eqn:Hscan; simpl.
  - by rewrite Hscan.
  - destruct (eq_str (method self) "steepest_descent") as [[|] | e'] eqn:Hsd; simpl;
      by rewrite Hscan, Hsd.
  - by rewrite Hscan.
Qed.
